(** * k-means with k-means++ seeding: a shallow embedding of [kmeans.go]

    The Go package clusters a slice of observations of an arbitrary type
    [T] with three injected functions ([distance], [mean], [equals]).
    This file embeds the package function by function and states the
    properties of the seeding loop, of the nearest-centroid search and of
    the refinement loop.

    Modelling choices, all following the source:
    - [float64] values are IEEE-754 binary64 values, taken from the
      Standard Library's [spec_float]; the source only compares them
      ([<], [>]) against each other and against two constants.
    - [int] indices are [Z] (the source uses [-1] as "nothing found"),
      slices are lists, [s[i]] is a checked lookup that panics.
    - the two [for cond { ... }] loops take a fuel argument; running out
      of fuel is [None], and a loop that never leaves is one that is
      [None] at every fuel.
    - [k.rnd.Intn(len(k.data))] is represented by its outcome [r], an
      index into the collection; [uint] counts are [nat]. *)

From Stdlib Require Import ZArith String Floats.SpecFloat.
From stdpp Require Import base tactics option list numbers.

Local Open Scope Z_scope.

(** ** float64 *)

Module Float64.

Definition float64 : Type := spec_float.

Definition prec : Z := 53.
Definition emax : Z := 1024.

(** [math.MaxFloat64], the largest finite binary64 value:
    (2^53 - 1) * 2^971. *)
Definition MaxFloat64 : float64 := S754_finite false 9007199254740991 971.

(** The literal [-1.0]: -(2^52) * 2^-52. *)
Definition neg_one : float64 := S754_finite true 4503599627370496 (-52).

Definition zero : float64 := S754_zero false.

(** Go's [a < b] and [a > b] on float64. *)
Definition flt (a b : float64) : bool := SFltb a b.
Definition fgt (a b : float64) : bool := flt b a.
Definition fle (a b : float64) : bool := SFleb a b.

Definition is_nan (a : float64) : bool :=
  match a with S754_nan => true | _ => false end.

(** Conversion of an integer, as Go's [float64(n)] does it. *)
Definition of_Z (n : Z) : float64 := binary_normalize prec emax n 0 false.

End Float64.

Import Float64.

(** ** Run-time panics and results *)

(** Go's run-time error "index out of range [i] with length n". *)
Inductive panic : Type :=
| index_out_of_range (i : Z) (n : nat).

Inductive result (A : Type) : Type :=
| Ok (a : A)
| Panic (p : panic).
Arguments Ok {A} a.
Arguments Panic {A} p.

Global Instance result_ret : MRet result := fun A a => Ok a.
Global Instance result_bind : MBind result := fun A B f m =>
  match m with
  | Ok a => f a
  | Panic p => Panic p
  end.

(** The value returned by [errors.New]. *)
Inductive error : Type :=
| errors_New (msg : string).

(** [s[i]] for an [int] index: a checked read. *)
Definition index {A : Type} (s : list A) (i : Z) : result A :=
  if decide (0 <= i) then
    match s !! Z.to_nat i with
    | Some a => Ok a
    | None => Panic (index_out_of_range i (length s))
    end
  else Panic (index_out_of_range i (length s)).

(** [func in(i int, p []int) bool] *)
Fixpoint in_ (i : Z) (p : list Z) : bool :=
  match p with
  | [] => false
  | s :: p' => if s =? i then true else in_ i p'
  end.

(** ** The package *)

Section KMeans.

Variable T : Type.

Definition DistanceFn : Type := T -> T -> float64.
Definition MeanFn : Type := list T -> T.
Definition EqualsFn : Type := T -> T -> bool.

(** [rnd] is kept as the seed the generator was created from; a draw of
    [rnd.Intn] is passed to the function that makes it. *)
Record KMeans : Type := mkKMeans {
  data : list T;
  distance : DistanceFn;
  mean : MeanFn;
  equals : EqualsFn;
  rnd : Z
}.

Record Cluster : Type := mkCluster {
  Centroid : T;
  Nodes : list T
}.

(** [NewKMeans]; [now] stands for [time.Now().UnixNano()]. *)
Definition NewKMeans (data : list T) (distance : DistanceFn) (mean : MeanFn)
    (equals : EqualsFn) (now : Z) : KMeans + error :=
  if (length data =? 0)%nat then
    inr (errors_New "no observations provided")
  else
    inl {| data := data; distance := distance; mean := mean;
           equals := equals; rnd := now |}.

Variable k : KMeans.

(** The loop of [nearestCluster], entered at position [i] with the
    clusters from [i] on still to visit. *)
Fixpoint nearestCluster_loop (node : T) (rest : list Cluster) (i : Z)
    (minDistance : float64) (idx : Z) : Z :=
  match rest with
  | [] => idx
  | c :: rest' =>
      let clusterDistance := distance k node (Centroid c) in
      if flt clusterDistance minDistance
      then nearestCluster_loop node rest' (i + 1) clusterDistance i
      else nearestCluster_loop node rest' (i + 1) minDistance idx
  end.

Definition nearestCluster (node : T) (clusters : list Cluster) : Z :=
  nearestCluster_loop node clusters 0 MaxFloat64 (-1).

(** The inner loop of [initClusters] over the observations from
    position [i] on; the state is [(nodeDistance, nodeIdx)]. *)
Fixpoint seedScan (rest : list T) (i : Z) (idx : list Z)
    (clusters : list Cluster) (nodeDistance : float64) (nodeIdx : Z)
    : result (float64 * Z) :=
  match rest with
  | [] => Ok (nodeDistance, nodeIdx)
  | x :: rest' =>
      if in_ i idx then
        seedScan rest' (i + 1) idx clusters nodeDistance nodeIdx
      else
        nearest ← index clusters (nearestCluster x clusters);
        let nearestClusterDistance := distance k x (Centroid nearest) in
        if fgt nearestClusterDistance nodeDistance
        then seedScan rest' (i + 1) idx clusters nearestClusterDistance i
        else seedScan rest' (i + 1) idx clusters nodeDistance nodeIdx
  end.

(** One round of the outer loop of [initClusters]. *)
Definition seedRound (idx : list Z) (clusters : list Cluster)
    : result (list Z * list Cluster) :=
  '(_, nodeIdx) ← seedScan (data k) 0 idx clusters neg_one (-1);
  x ← index (data k) nodeIdx;
  Ok (idx ++ [nodeIdx], clusters ++ [{| Centroid := x; Nodes := [] |}]).

Fixpoint seedLoop (fuel : nat) (numClusters : nat) (idx : list Z)
    (clusters : list Cluster) : option (result (list Z * list Cluster)) :=
  if (length clusters <? numClusters)%nat then
    match fuel with
    | O => None
    | S fuel' =>
        match seedRound idx clusters with
        | Panic p => Some (Panic p)
        | Ok (idx', clusters') => seedLoop fuel' numClusters idx' clusters'
        end
    end
  else Some (Ok (idx, clusters)).

(** [initClusters], returning the chosen positions [idx] next to the
    clusters. [r] is the outcome of [k.rnd.Intn(len(k.data))]. *)
Definition initClustersIdx (fuel : nat) (r : Z) (numClusters : nat)
    : option (result (list Z * list Cluster)) :=
  match index (data k) r with
  | Panic p => Some (Panic p)
  | Ok x => seedLoop fuel numClusters [r] [{| Centroid := x; Nodes := [] |}]
  end.

Definition initClusters (fuel : nat) (r : Z) (numClusters : nat)
    : option (result (list Cluster)) :=
  match initClustersIdx fuel r numClusters with
  | None => None
  | Some (Panic p) => Some (Panic p)
  | Some (Ok (_, clusters)) => Some (Ok clusters)
  end.

(** [clusters[i].Nodes = append(clusters[i].Nodes, x)] *)
Definition appendNode (clusters : list Cluster) (i : Z) (x : T)
    : result (list Cluster) :=
  c ← index clusters i;
  Ok (<[Z.to_nat i := {| Centroid := Centroid c; Nodes := Nodes c ++ [x] |}]>
        clusters).

(** The assignment loop of [partition] over the observations [obs]. *)
Fixpoint assign (obs : list T) (clusters : list Cluster)
    : result (list Cluster) :=
  match obs with
  | [] => Ok clusters
  | x :: obs' =>
      clusters' ← appendNode clusters (nearestCluster x clusters) x;
      assign obs' clusters'
  end.

(** The update loop of [partition] over the clusters still to visit. *)
Fixpoint update (rest : list Cluster) (changedInIteration : bool)
    : list Cluster * bool :=
  match rest with
  | [] => ([], changedInIteration)
  | c :: rest' =>
      let pc := Centroid c in
      let c' := {| Centroid := mean k (Nodes c); Nodes := Nodes c |} in
      let '(rest'', changed) :=
        update rest' (changedInIteration || equals k pc (Centroid c')) in
      (c' :: rest'', changed)
  end.

(** One pass of the body of [for changed { ... }]. *)
Definition iteration (clusters : list Cluster)
    : result (list Cluster * bool) :=
  clusters' ← assign (data k) clusters;
  Ok (update clusters' false).

Fixpoint partition_loop (fuel : nat) (changed : bool)
    (clusters : list Cluster) : option (result (list Cluster)) :=
  if changed then
    match fuel with
    | O => None
    | S fuel' =>
        match iteration clusters with
        | Panic p => Some (Panic p)
        | Ok (clusters', changedInIteration) =>
            partition_loop fuel' changedInIteration clusters'
        end
    end
  else Some (Ok clusters).

Definition partition (fuel : nat) (clusters : list Cluster)
    : option (result (list Cluster)) :=
  partition_loop fuel true clusters.

Definition Calculate (fuel : nat) (r : Z) (numClusters : nat)
    : option (result (list Cluster)) :=
  match initClusters fuel r numClusters with
  | None => None
  | Some (Panic p) => Some (Panic p)
  | Some (Ok clusters) => partition fuel clusters
  end.

End KMeans.

Arguments mkKMeans {T}.
Arguments data {T}.
Arguments distance {T}.
Arguments mean {T}.
Arguments equals {T}.
Arguments rnd {T}.
Arguments mkCluster {T}.
Arguments Centroid {T}.
Arguments Nodes {T}.
Arguments NewKMeans {T}.
Arguments nearestCluster_loop {T}.
Arguments nearestCluster {T}.
Arguments seedScan {T}.
Arguments seedRound {T}.
Arguments seedLoop {T}.
Arguments initClustersIdx {T}.
Arguments initClusters {T}.
Arguments appendNode {T}.
Arguments assign {T}.
Arguments update {T}.
Arguments iteration {T}.
Arguments partition_loop {T}.
Arguments partition {T}.
Arguments Calculate {T}.

(** ** A one-dimensional instance: integers with |a - b| as distance *)

(** Functions a caller may inject, used for the concrete runs below. *)
Module Line.

(** [float64] of the absolute difference. *)
Definition dist (a b : Z) : float64 := of_Z (Z.abs (a - b)).

Fixpoint sum (n : list Z) : Z :=
  match n with
  | [] => 0
  | x :: n' => x + sum n'
  end.

(** The integer average, with Go's truncating division; 0 for an empty
    list, which no run below reaches. *)
Definition avg (n : list Z) : Z := Z.quot (sum n) (Z.of_nat (length n)).

Definition line (obs : list Z) : KMeans Z :=
  {| data := obs; distance := dist; mean := avg; equals := Z.eqb; rnd := 0 |}.

(** A distance that treats distinct observations as incomparably far
    apart: 0 on the diagonal, [math.MaxFloat64] elsewhere. *)
Definition far (a b : Z) : float64 := if a =? b then zero else MaxFloat64.

Definition apart (obs : list Z) : KMeans Z :=
  {| data := obs; distance := far; mean := avg; equals := Z.eqb; rnd := 0 |}.

Definition seed (c : Z) : Cluster Z := {| Centroid := c; Nodes := [] |}.

(** Six observations in two groups; the draw is position 0. *)
Definition six : KMeans Z := line [0; -5; 5; 7; 8; 12].

End Line.

(** ** Notions used in the statements *)

Section Notions.

Context {T : Type} (k : KMeans T).
Implicit Types (node x y : T) (obs : list T) (idx : list Z).
Implicit Types (clusters centers pre rest : list (Cluster T)).

(** The distance from [node] to the centroid of [c]. *)
Definition dist_to (node : T) (c : Cluster T) : float64 :=
  distance k node (Centroid c).

(** What the loop of [nearestCluster] knows after visiting [pre]. *)
Definition nearest_inv node pre (minDistance : float64) (idx : Z) : Prop :=
  (forall c, c ∈ pre -> flt (dist_to node c) minDistance = false) /\
  ((idx = -1 /\ minDistance = MaxFloat64) \/
   (0 <= idx /\ exists c,
      pre !! Z.to_nat idx = Some c /\
      minDistance = dist_to node c /\
      flt minDistance MaxFloat64 = true /\
      forall j c', (j < Z.to_nat idx)%nat -> pre !! j = Some c' ->
                   fle (dist_to node c') minDistance = false)).

Definition addNode (c : Cluster T) (x : T) : Cluster T :=
  {| Centroid := Centroid c; Nodes := Nodes c ++ [x] |}.

Definition addNodes (c : Cluster T) (l : list T) : Cluster T :=
  {| Centroid := Centroid c; Nodes := Nodes c ++ l |}.

(** The observations of [obs], in order, whose nearest centroid among
    [centers] is at position [i]. *)
Definition assigned centers obs (i : nat) : list T :=
  filter (fun x => nearestCluster k x centers = Z.of_nat i) obs.

(** [c'] has the centroid of [c] and its members, possibly followed by
    more. *)
Definition extends (c c' : Cluster T) : Prop :=
  Centroid c' = Centroid c /\ exists l, Nodes c' = Nodes c ++ l.

(** Lines 67-68: the distance from [x] to the centroid that
    [nearestCluster] picks for it. *)
Definition seedDistance x clusters : result float64 :=
  nearest ← index clusters (nearestCluster k x clusters);
  Ok (distance k x (Centroid nearest)).

(** What the scan knows after visiting the observations [pre]. *)
Definition scan_inv idx clusters (pre : list T)
    (nodeDistance : float64) (nodeIdx : Z) : Prop :=
  (forall (j : nat) y dj,
      pre !! j = Some y -> Z.of_nat j ∉ idx ->
      seedDistance y clusters = Ok dj -> fgt dj nodeDistance = false) /\
  ((nodeIdx = -1 /\ nodeDistance = neg_one) \/
   (exists (i : nat) x,
      nodeIdx = Z.of_nat i /\ (Z.of_nat i ∉ idx) /\ pre !! i = Some x /\
      seedDistance x clusters = Ok nodeDistance /\
      fgt nodeDistance neg_one = true /\
      forall (j : nat) y dj,
        (j < i)%nat -> pre !! j = Some y -> Z.of_nat j ∉ idx ->
        seedDistance y clusters = Ok dj -> fle nodeDistance dj = false)).

(** The invariant of the seeding loop: the chosen positions are
    pairwise distinct, and the clusters are, in order, the observations
    at these positions with no members. *)
Definition seed_inv idx clusters : Prop :=
  NoDup idx /\
  Forall2 (fun i c => index (data k) i = Ok (Centroid c) /\ Nodes c = [])
          idx clusters.

(** [d] is the distance from [x] to its nearest centroid among
    [clusters]: it is the distance to one of them, and no centroid is
    closer. *)
Definition nearest_distance x clusters (d : float64) : Prop :=
  (exists c, c ∈ clusters /\ d = dist_to x c) /\
  (forall c, c ∈ clusters -> fle d (dist_to x c) = true).

(** The states at the head of the seeding loop: the first draw [r],
    then one completed round after the other. *)
Inductive seed_reachable (r : Z) : list Z -> list (Cluster T) -> Prop :=
| seed_first x :
    index (data k) r = Ok x ->
    seed_reachable r [r] [{| Centroid := x; Nodes := [] |}]
| seed_next idx clusters idx' clusters' :
    seed_reachable r idx clusters ->
    seedRound k idx clusters = Ok (idx', clusters') ->
    seed_reachable r idx' clusters'.

(** The only index the package ever reads out of range is [-1]. *)
Definition is_minus_one (p : panic) : Prop :=
  exists n, p = index_out_of_range (-1) n.

(** All members of all clusters, cluster after cluster. *)
Definition members clusters : list T := mjoin (Nodes <$> clusters).

(** Line 127 for one cluster. *)
Definition recenter (c : Cluster T) : Cluster T :=
  {| Centroid := mean k (Nodes c); Nodes := Nodes c |}.

(** Some cluster's previous centroid [equals] its recomputed one. *)
Definition some_unchanged clusters : bool :=
  existsb (fun c => equals k (Centroid c) (mean k (Nodes c))) clusters.

End Notions.

(** ** Order of float64 values *)

Module Float64Facts.

Ltac cmp_cases :=
  repeat match goal with
         | |- context [Z.compare ?a ?b] =>
             destruct (Z.compare_spec a b); subst
         | |- context [Pos.compare_cont Eq ?a ?b] =>
             change (Pos.compare_cont Eq a b) with (Pos.compare a b);
             destruct (Pos.compare_spec a b); subst
         | H : context [Z.compare ?a ?b] |- _ =>
             destruct (Z.compare_spec a b); subst
         | H : context [Pos.compare_cont Eq ?a ?b] |- _ =>
             change (Pos.compare_cont Eq a b) with (Pos.compare a b) in H;
             destruct (Pos.compare_spec a b); subst
         end.

Ltac order_crush :=
  unfold fgt in *; unfold flt, fle, SFltb, SFleb, SFcompare in *;
  repeat match goal with
         | s : bool |- _ => destruct s
         end;
  simpl in *; try congruence;
  cmp_cases; simpl in *; try congruence; try lia.

Lemma flt_trans a b c : flt a b = true -> flt b c = true -> flt a c = true.
Proof. destruct a, b, c; intros; order_crush. Qed.

Lemma fle_flt_trans a b c : fle a b = true -> flt b c = true -> flt a c = true.
Proof. destruct a, b, c; intros; order_crush. Qed.

Lemma flt_fle_trans a b c : flt a b = true -> fle b c = true -> flt a c = true.
Proof. destruct a, b, c; intros; order_crush. Qed.

Lemma fle_trans a b c : fle a b = true -> fle b c = true -> fle a c = true.
Proof. destruct a, b, c; intros; order_crush. Qed.

Lemma flt_fle a b : flt a b = true -> fle a b = true.
Proof. destruct a, b; intros; order_crush. Qed.

Lemma flt_irrefl a : flt a a = false.
Proof. destruct a; order_crush. Qed.

Lemma flt_not_fle a b : flt a b = true -> fle b a = false.
Proof. destruct a, b; intros; order_crush. Qed.

(** Apart from NaN the order is total. *)
Lemma not_flt_fle a b :
  is_nan a = false -> is_nan b = false -> flt a b = false -> fle b a = true.
Proof. destruct a, b; intros; order_crush. Qed.

Lemma not_fle_flt a b :
  is_nan a = false -> is_nan b = false -> fle a b = false -> flt b a = true.
Proof. destruct a, b; intros; order_crush. Qed.

Lemma fle_refl a : is_nan a = false -> fle a a = true.
Proof. destruct a; intros; order_crush. Qed.

Lemma fle_not_nan_l a b : fle a b = true -> is_nan a = false.
Proof. destruct a, b; intros; order_crush. Qed.

Lemma fle_not_nan_r a b : fle a b = true -> is_nan b = false.
Proof. destruct a, b; intros; order_crush. Qed.

Lemma flt_not_nan_l a b : flt a b = true -> is_nan a = false.
Proof. destruct a, b; intros; order_crush. Qed.

(** A non-negative value is above the literal [-1.0]. *)
Lemma nonneg_gt_neg_one d : fle zero d = true -> fgt d neg_one = true.
Proof. destruct d; intros; order_crush. Qed.

(** *** Conversion of a non-negative integer *)

Lemma shr_1_nonneg mrs : 0 <= shr_m mrs -> 0 <= shr_m (shr_1 mrs).
Proof.
  destruct mrs as [m r s]. destruct m as [|p|p]; simpl; intros H;
    try destruct p; simpl; lia.
Qed.

Lemma iter_pos_shr_1_nonneg p : forall mrs,
  0 <= shr_m mrs -> 0 <= shr_m (SpecFloat.iter_pos shr_1 p mrs).
Proof.
  induction p as [p IH|p IH|]; intros mrs H; simpl;
    auto using shr_1_nonneg.
Qed.

Lemma shr_fexp_nonneg m e l :
  0 <= m -> 0 <= shr_m (fst (shr_fexp prec emax m e l)).
Proof.
  intros H. unfold shr_fexp, shr.
  assert (0 <= shr_m (shr_record_of_loc m l)) as H0
    by (by destruct l as [|[]]).
  destruct (fexp prec emax (Zdigits2 m + e) - e); simpl; [done| |done].
  by apply iter_pos_shr_1_nonneg.
Qed.

Lemma round_nearest_even_nonneg mx lx :
  0 <= mx -> 0 <= round_nearest_even mx lx.
Proof.
  intros H. destruct lx as [|[]]; simpl; [done| |done|lia].
  destruct (Z.even mx); lia.
Qed.

Lemma binary_round_aux_nonneg mx ex lx :
  0 <= mx -> fle zero (binary_round_aux prec emax false mx ex lx) = true.
Proof.
  intros H. unfold binary_round_aux.
  pose proof (shr_fexp_nonneg mx ex lx H) as H1.
  destruct (shr_fexp prec emax mx ex lx) as [mrs' e']. simpl in H1.
  pose proof (shr_fexp_nonneg _ e' loc_Exact
                (round_nearest_even_nonneg _ (loc_of_shr_record mrs') H1)) as H2.
  destruct (shr_fexp prec emax _ e' loc_Exact) as [mrs'' e'']. simpl in H2.
  destruct (shr_m mrs'') as [|m|m]; [done| |lia].
  by destruct (e'' <=? emax - prec).
Qed.

(** [float64(n)] of a non-negative integer is not NaN and not below
    zero. *)
Lemma of_Z_nonneg n : 0 <= n -> fle zero (of_Z n) = true.
Proof.
  intros H. unfold of_Z, binary_normalize.
  destruct n as [|p|p]; [done| |lia].
  unfold binary_round. destruct (shl_align _ _ _) as [mz ez].
  by apply binary_round_aux_nonneg.
Qed.

End Float64Facts.

Import Float64Facts.

(** ** Facts about the one-dimensional instance *)

Module LineFacts.

Import Line.

Lemma dist_nonneg a b : fle zero (dist a b) = true.
Proof. apply of_Z_nonneg. lia. Qed.

Lemma dist_self a : dist a a = zero.
Proof. unfold dist. by rewrite Z.sub_diag. Qed.

Lemma sum_app n m : sum (n ++ m) = sum n + sum m.
Proof. induction n as [|x n IH]; simpl; lia. Qed.

(** A non-empty list whose sum is [c] times its length averages to [c]. *)
Lemma avg_balanced c n :
  n <> [] -> sum n = c * Z.of_nat (length n) -> avg n = c.
Proof.
  intros Hne Hsum. unfold avg. rewrite Hsum. apply Z.quot_mul.
  destruct n; [done|]. simpl. lia.
Qed.

Lemma far_nonneg a b : fle zero (far a b) = true.
Proof. unfold far. by destruct (a =? b). Qed.

End LineFacts.

(** ** Checked reads and the membership test *)

Section Index.

Context {A : Type}.
Implicit Types (s : list A) (i : Z).

Lemma index_Ok s i a :
  index s i = Ok a <-> 0 <= i /\ s !! Z.to_nat i = Some a.
Proof.
  unfold index. destruct (decide (0 <= i)) as [Hi|Hi].
  - destruct (s !! Z.to_nat i) eqn:E; split; intros H.
    + injection H as ->. auto.
    + destruct H as [_ H]. congruence.
    + discriminate.
    + destruct H as [_ H]. discriminate.
  - split; [discriminate | intros [H _]; contradiction].
Qed.

Lemma index_of_nat s (n : nat) a :
  s !! n = Some a -> index s (Z.of_nat n) = Ok a.
Proof.
  intros H. apply index_Ok. split; [lia|]. by rewrite Nat2Z.id.
Qed.

Lemma index_neg s i :
  i < 0 -> index s i = Panic (index_out_of_range i (length s)).
Proof. intros H. unfold index. destruct (decide (0 <= i)); [lia | done]. Qed.

Lemma index_Ok_lt s i a : index s i = Ok a -> 0 <= i < Z.of_nat (length s).
Proof.
  intros [Hi Hl]%index_Ok. apply lookup_lt_Some in Hl. lia.
Qed.

Lemma index_in_range s i :
  0 <= i < Z.of_nat (length s) -> exists a, index s i = Ok a.
Proof.
  intros [Hi Hl]. destruct (lookup_lt_is_Some_2 s (Z.to_nat i)) as [a Ha];
    [lia|]. exists a. by apply index_Ok.
Qed.

End Index.

Lemma in_elem_of (i : Z) (p : list Z) : in_ i p = true <-> i ∈ p.
Proof.
  induction p as [|s p IH]; simpl.
  - split; [discriminate | intros H; inversion H].
  - destruct (Z.eqb_spec s i) as [->|Hne].
    + split; [intros _; left | done].
    + rewrite IH. split; [by right|]. intros H. inversion H; [congruence | done].
Qed.

Lemma in_not_elem_of (i : Z) (p : list Z) : in_ i p = false <-> i ∉ p.
Proof.
  rewrite <- in_elem_of. destruct (in_ i p); split; congruence.
Qed.

(** ** The nearest-centroid search *)

Section Nearest.

Context {T : Type} (k : KMeans T).
Implicit Types (node : T) (clusters pre rest : list (Cluster T)).

Lemma flt_false_trans (a b c : float64) :
  flt a c = false -> flt b c = true -> flt a b = false.
Proof.
  intros Hac Hbc. destruct (flt a b) eqn:E; [|done].
  by rewrite (flt_trans _ _ _ E Hbc) in Hac.
Qed.

Lemma fle_false_trans (a b c : float64) :
  flt a c = false -> flt b c = true -> fle a b = false.
Proof.
  intros Hac Hbc. destruct (fle a b) eqn:E; [|done].
  by rewrite (fle_flt_trans _ _ _ E Hbc) in Hac.
Qed.

Lemma nearestCluster_loop_inv node rest : forall pre minDistance idx,
  nearest_inv k node pre minDistance idx ->
  exists minDistance',
    nearest_inv k node (pre ++ rest) minDistance'
      (nearestCluster_loop k node rest (Z.of_nat (length pre)) minDistance idx).
Proof.
  induction rest as [|c rest IH]; intros pre minD idx Hinv; simpl.
  - exists minD. by rewrite app_nil_r.
  - replace (Z.of_nat (length pre) + 1) with (Z.of_nat (length (pre ++ [c])))
      by (rewrite length_app; simpl; lia).
    replace (pre ++ c :: rest) with ((pre ++ [c]) ++ rest)
      by (by rewrite <- app_assoc).
    destruct Hinv as [Hmin Hidx].
    fold (dist_to k node c).
    destruct (flt (dist_to k node c) minD) eqn:Hlt; apply IH; split.
    + intros c' [Hc'|Hc']%elem_of_app.
      * eapply flt_false_trans; eauto.
      * apply list_elem_of_singleton in Hc' as ->. apply flt_irrefl.
    + right. split; [lia|]. exists c. rewrite Nat2Z.id.
      split; [by rewrite lookup_app_r, Nat.sub_diag|].
      split; [done|]. split.
      * destruct Hidx as [[_ ->]|(_ & c0 & _ & _ & Hc0 & _)]; [done|].
        eapply flt_trans; eauto.
      * intros j c' Hj Hc'. rewrite lookup_app_l in Hc' by done.
        eapply fle_false_trans; [|exact Hlt].
        apply Hmin. eapply list_elem_of_lookup_2; eauto.
    + intros c' [Hc'|Hc']%elem_of_app; [by apply Hmin|].
      by apply list_elem_of_singleton in Hc' as ->.
    + destruct Hidx as [?|(Hi & c0 & Hl & Hd & Hm & Hlow)]; [by left|].
      right. split; [done|]. exists c0.
      pose proof (lookup_lt_Some _ _ _ Hl) as Hlen.
      split; [by rewrite lookup_app_l|]. do 2 (split; [done|]).
      intros j c' Hj Hc'. rewrite lookup_app_l in Hc' by lia. eauto.
Qed.

(** [nearestCluster] either finds nothing below [MaxFloat64] and returns
    [-1], or returns the first position of a centroid that no other
    centroid is strictly closer than. *)
Lemma nearestCluster_spec node clusters :
  (nearestCluster k node clusters = -1 /\
   forall c, c ∈ clusters -> flt (dist_to k node c) MaxFloat64 = false) \/
  (exists (i : nat) c,
     nearestCluster k node clusters = Z.of_nat i /\
     clusters !! i = Some c /\
     flt (dist_to k node c) MaxFloat64 = true /\
     (forall c', c' ∈ clusters -> flt (dist_to k node c') (dist_to k node c) = false) /\
     (forall j c', (j < i)%nat -> clusters !! j = Some c' ->
                   fle (dist_to k node c') (dist_to k node c) = false)).
Proof.
  destruct (nearestCluster_loop_inv node clusters [] MaxFloat64 (-1))
    as (m & Hmin & Hidx).
  { split; [intros c Hc; inversion Hc | by left]. }
  change (nearestCluster_loop k node clusters _ MaxFloat64 (-1))
    with (nearestCluster k node clusters) in Hidx.
  rewrite app_nil_l in Hmin, Hidx.
  destruct Hidx as [[-> ->]|(Hi & c & Hl & -> & Hm & Hlow)].
  - by left.
  - right. exists (Z.to_nat (nearestCluster k node clusters)), c.
    rewrite Z2Nat.id by done. auto.
Qed.

Lemma nearestCluster_found node clusters :
  (exists c, c ∈ clusters /\ flt (dist_to k node c) MaxFloat64 = true) ->
  exists (i : nat) c,
    nearestCluster k node clusters = Z.of_nat i /\
    clusters !! i = Some c /\
    flt (dist_to k node c) MaxFloat64 = true /\
    (forall c', c' ∈ clusters -> flt (dist_to k node c') (dist_to k node c) = false) /\
    (forall j c', (j < i)%nat -> clusters !! j = Some c' ->
                  fle (dist_to k node c') (dist_to k node c) = false).
Proof.
  intros (c & Hc & Hlt).
  destruct (nearestCluster_spec node clusters) as [[_ Hnone]|H]; [|done].
  by rewrite (Hnone c Hc) in Hlt.
Qed.

(** The search reads the centroids only. *)
Lemma nearestCluster_loop_centroids node rest rest' :
  Centroid <$> rest = Centroid <$> rest' -> forall i minDistance idx,
  nearestCluster_loop k node rest i minDistance idx =
  nearestCluster_loop k node rest' i minDistance idx.
Proof.
  revert rest'. induction rest as [|c rest IH]; intros [|c' rest'] Heq;
    try discriminate; [done|].
  simpl in Heq. injection Heq as Hc Hrest. intros i m idx. simpl.
  rewrite Hc. destruct (flt _ m); by apply IH.
Qed.

Lemma nearestCluster_centroids node clusters clusters' :
  Centroid <$> clusters = Centroid <$> clusters' ->
  nearestCluster k node clusters = nearestCluster k node clusters'.
Proof. intros H. by apply nearestCluster_loop_centroids. Qed.

End Nearest.

(** ** The assignment step *)

Section Assign.

Context {T : Type} (k : KMeans T).
Implicit Types (x : T) (obs : list T) (clusters centers : list (Cluster T)).

Lemma appendNode_Ok clusters (i : nat) c x :
  clusters !! i = Some c ->
  appendNode clusters (Z.of_nat i) x = Ok (<[i := addNode c x]> clusters).
Proof.
  intros H. unfold appendNode. rewrite (index_of_nat _ _ _ H). simpl.
  by rewrite Nat2Z.id.
Qed.

Lemma appendNode_neg clusters i x :
  i < 0 ->
  appendNode clusters i x = Panic (index_out_of_range i (length clusters)).
Proof. intros H. unfold appendNode. by rewrite index_neg. Qed.

Lemma insert_addNode_centroids clusters (i : nat) c x :
  clusters !! i = Some c ->
  Centroid <$> <[i := addNode c x]> clusters = Centroid <$> clusters.
Proof.
  intros H. rewrite list_fmap_insert. apply list_insert_id.
  by rewrite list_lookup_fmap, H.
Qed.

Lemma addNodes_nil (c : Cluster T) : addNodes c [] = c.
Proof. destruct c. unfold addNodes. simpl. by rewrite app_nil_r. Qed.

Lemma addNodes_addNode (c : Cluster T) x l :
  addNodes (addNode c x) l = addNodes c (x :: l).
Proof. unfold addNodes, addNode. simpl. by rewrite <- app_assoc. Qed.

(** With the centroids [centers] fixed, the assignment loop appends to
    the cluster at each position the observations assigned to it. *)
Lemma assign_from centers obs : forall clusters,
  Centroid <$> clusters = Centroid <$> centers ->
  (forall x, x ∈ obs ->
     exists c, c ∈ centers /\ flt (dist_to k x c) MaxFloat64 = true) ->
  assign k obs clusters =
  Ok (imap (fun i c => addNodes c (assigned k centers obs i)) clusters).
Proof.
  induction obs as [|x obs IH]; intros clusters Hcen Hbelow; simpl.
  - f_equal. apply list_eq. intros i. rewrite list_lookup_imap.
    destruct (clusters !! i); simpl; [|done]. by rewrite addNodes_nil.
  - destruct (nearestCluster_found k x centers) as (i & c0 & Hi & Hl & _).
    { apply Hbelow. left. }
    rewrite (nearestCluster_centroids k x clusters centers Hcen), Hi.
    assert (exists c, clusters !! i = Some c) as [c Hc].
    { apply lookup_lt_is_Some_2.
      rewrite <- (length_fmap Centroid), Hcen, length_fmap.
      eapply lookup_lt_Some; eauto. }
    rewrite (appendNode_Ok _ _ _ _ Hc). simpl.
    rewrite IH.
    + f_equal. apply list_eq. intros j.
      rewrite !list_lookup_imap. unfold assigned. rewrite filter_cons.
      destruct (decide (i = j)) as [<-|Hne].
      * rewrite list_lookup_insert_eq by (eapply lookup_lt_Some; eauto).
        rewrite Hc. simpl. rewrite decide_True by done.
        by rewrite addNodes_addNode.
      * rewrite list_lookup_insert_ne by done.
        rewrite decide_False by lia. done.
    + by rewrite insert_addNode_centroids.
    + intros y Hy. apply Hbelow. by right.
Qed.

Lemma assign_spec obs clusters :
  (forall x, x ∈ obs ->
     exists c, c ∈ clusters /\ flt (dist_to k x c) MaxFloat64 = true) ->
  assign k obs clusters =
  Ok (imap (fun i c => addNodes c (assigned k clusters obs i)) clusters).
Proof. by apply assign_from. Qed.

Lemma extends_refl (c : Cluster T) : extends c c.
Proof. split; [done|]. exists []. by rewrite app_nil_r. Qed.

Lemma extends_trans (c1 c2 c3 : Cluster T) :
  extends c1 c2 -> extends c2 c3 -> extends c1 c3.
Proof.
  intros [Hc1 [l1 Hl1]] [Hc2 [l2 Hl2]]. split; [congruence|].
  exists (l1 ++ l2). rewrite Hl2, Hl1. by rewrite app_assoc.
Qed.

(** Whatever the distances, a completed assignment loop keeps every
    centroid and only extends the member lists: nothing empties them. *)
Lemma assign_extends obs : forall clusters clusters',
  assign k obs clusters = Ok clusters' ->
  Forall2 extends clusters clusters'.
Proof.
  induction obs as [|x obs IH]; intros clusters clusters' H; simpl in H.
  - injection H as <-. apply Forall_Forall2_diag, Forall_forall.
    intros c _. apply extends_refl.
  - unfold appendNode in H.
    destruct (index clusters (nearestCluster k x clusters)) as [c|p] eqn:E;
      simpl in H; [|discriminate].
    apply index_Ok in E as [Hi Hl].
    apply IH in H.
    eapply Forall2_trans; [apply extends_trans| |exact H].
    apply Forall2_same_length_lookup. split; [by rewrite length_insert|].
    intros j c1 c2 H1 H2.
    destruct (decide (Z.to_nat (nearestCluster k x clusters) = j))
      as [<-|Hne].
    + rewrite list_lookup_insert_eq in H2 by (eapply lookup_lt_Some; eauto).
      injection H2 as <-. rewrite Hl in H1. injection H1 as <-.
      split; simpl; eauto.
    + rewrite list_lookup_insert_ne in H2 by done.
      rewrite H1 in H2. injection H2 as <-. apply extends_refl.
Qed.

End Assign.

(** ** One scan of the seeding loop *)

Section SeedScan.

Context {T : Type} (k : KMeans T).
Implicit Types (x y : T) (idx : list Z) (clusters : list (Cluster T)).

Lemma seedScan_cons x rest i idx clusters nodeDistance nodeIdx :
  seedScan k (x :: rest) i idx clusters nodeDistance nodeIdx =
  if in_ i idx then seedScan k rest (i + 1) idx clusters nodeDistance nodeIdx
  else
    d ← seedDistance k x clusters;
    if fgt d nodeDistance then seedScan k rest (i + 1) idx clusters d i
    else seedScan k rest (i + 1) idx clusters nodeDistance nodeIdx.
Proof.
  simpl. destruct (in_ i idx); [done|]. unfold seedDistance.
  by destruct (index clusters (nearestCluster k x clusters)).
Qed.

Lemma fgt_false_trans (a b c : float64) :
  fgt a c = false -> fgt b c = true -> fgt a b = false.
Proof.
  unfold fgt. intros Hac Hbc. destruct (flt b a) eqn:E; [|done].
  by rewrite (flt_trans _ _ _ Hbc E) in Hac.
Qed.

Lemma fge_false_trans (a b c : float64) :
  fgt a c = false -> fgt b c = true -> fle b a = false.
Proof.
  unfold fgt. intros Hac Hbc. destruct (fle b a) eqn:E; [|done].
  by rewrite (flt_fle_trans _ _ _ Hbc E) in Hac.
Qed.

Lemma seedScan_inv idx clusters rest : forall pre nodeDistance nodeIdx nd ni,
  scan_inv k idx clusters pre nodeDistance nodeIdx ->
  seedScan k rest (Z.of_nat (length pre)) idx clusters nodeDistance nodeIdx
    = Ok (nd, ni) ->
  scan_inv k idx clusters (pre ++ rest) nd ni.
Proof.
  induction rest as [|x rest IH]; intros pre nd0 ni0 nd ni Hinv Hscan.
  - simpl in Hscan. injection Hscan as <- <-. by rewrite app_nil_r.
  - rewrite seedScan_cons in Hscan.
    replace (Z.of_nat (length pre) + 1) with (Z.of_nat (length (pre ++ [x])))
      in Hscan by (rewrite length_app; simpl; lia).
    replace (pre ++ x :: rest) with ((pre ++ [x]) ++ rest)
      by (by rewrite <- app_assoc).
    destruct Hinv as [Hmax Hidx].
    assert (Hkeep : forall (P : Prop), (Z.of_nat (length pre) ∉ idx -> P) ->
              forall (j : nat) y, (pre ++ [x]) !! j = Some y ->
                Z.of_nat j ∉ idx -> pre !! j = Some y \/ (j = length pre /\ y = x /\ P)).
    { intros P HP j y Hj Hnot.
      destruct (decide (j < length pre)%nat) as [Hlt|Hge].
      - left. by rewrite lookup_app_l in Hj.
      - rewrite lookup_app_r in Hj by lia.
        destruct (j - length pre)%nat as [|n] eqn:E; simpl in Hj; [|done].
        injection Hj as <-. assert (j = length pre) as -> by lia. auto. }
    assert (Hold :
      (ni0 = -1 /\ nd0 = neg_one) \/
      (exists (i : nat) x0,
         ni0 = Z.of_nat i /\ (Z.of_nat i ∉ idx) /\ (pre ++ [x]) !! i = Some x0 /\
         seedDistance k x0 clusters = Ok nd0 /\ fgt nd0 neg_one = true /\
         forall (j : nat) y dj,
           (j < i)%nat -> (pre ++ [x]) !! j = Some y -> Z.of_nat j ∉ idx ->
           seedDistance k y clusters = Ok dj -> fle nd0 dj = false)).
    { destruct Hidx as [?|(i & x0 & ? & ? & Hl & ? & ? & Hlow)]; [by left|].
      right. exists i, x0. pose proof (lookup_lt_Some _ _ _ Hl).
      repeat split; try done; [by rewrite lookup_app_l|].
      intros j y dj Hj Hy. rewrite lookup_app_l in Hy by lia. eauto. }
    destruct (in_ (Z.of_nat (length pre)) idx) eqn:Hin.
    + apply (IH _ _ _ _ _) in Hscan; [done|]. split; [|done].
      apply in_elem_of in Hin.
      intros j y dj Hj Hnot.
      destruct (Hkeep False (fun H => H Hin) j y Hj Hnot)
        as [Hpre|(_ & _ & [])].
      eauto.
    + destruct (seedDistance k x clusters) as [d|p] eqn:Hd;
        simpl in Hscan; [|discriminate].
      apply in_not_elem_of in Hin.
      destruct (fgt d nd0) eqn:Hgt; apply (IH _ _ _ _ _) in Hscan; try done.
      * split.
        -- intros j y dj Hj Hnot Hdj.
           destruct (Hkeep True (fun _ => I) j y Hj Hnot) as [Hpre|(-> & -> & _)].
           ++ eapply fgt_false_trans; eauto.
           ++ rewrite Hd in Hdj. injection Hdj as <-. apply flt_irrefl.
        -- right. exists (length pre), x.
           split; [done|]. split; [done|].
           split; [by rewrite lookup_app_r, Nat.sub_diag|].
           split; [done|]. split.
           ++ destruct Hidx as [[_ ->]|(_ & _ & _ & _ & _ & _ & Hn & _)];
                [done|]. unfold fgt in *. eapply flt_trans; eauto.
           ++ intros j y dj Hj Hy Hnot Hdj.
              rewrite lookup_app_l in Hy by done.
              eapply fge_false_trans; eauto.
      * split; [|done].
        intros j y dj Hj Hnot Hdj.
        destruct (Hkeep True (fun _ => I) j y Hj Hnot) as [Hpre|(-> & -> & _)].
        -- eauto.
        -- rewrite Hd in Hdj. by injection Hdj as <-.
Qed.

End SeedScan.

(** ** The seeding loop *)

Section Seeding.

Context {T : Type} (k : KMeans T).
Implicit Types (x y : T) (idx : list Z) (clusters : list (Cluster T)).

Lemma scan_inv_start idx clusters : scan_inv k idx clusters [] neg_one (-1).
Proof. split; [intros j y dj Hj; by rewrite lookup_nil in Hj | by left]. Qed.

Lemma seedScan_data_inv idx clusters nd ni :
  seedScan k (data k) 0 idx clusters neg_one (-1) = Ok (nd, ni) ->
  scan_inv k idx clusters (data k) nd ni.
Proof.
  intros H.
  apply (seedScan_inv k idx clusters (data k) [] neg_one (-1) nd ni);
    [apply scan_inv_start | exact H].
Qed.

(** With every position taken the scan finds nothing. *)
Lemma seedScan_all_chosen idx clusters rest : forall i nodeDistance nodeIdx,
  (forall j : nat, (j < length rest)%nat -> i + Z.of_nat j ∈ idx) ->
  seedScan k rest i idx clusters nodeDistance nodeIdx
    = Ok (nodeDistance, nodeIdx).
Proof.
  induction rest as [|x rest IH]; intros i nd ni Hall; [done|].
  rewrite seedScan_cons.
  assert (in_ i idx = true) as ->.
  { apply in_elem_of. replace i with (i + Z.of_nat 0) by lia.
    apply Hall. simpl. lia. }
  apply IH. intros j Hj.
  replace (i + 1 + Z.of_nat j) with (i + Z.of_nat (S j)) by lia.
  apply Hall. simpl. lia.
Qed.

(** The scan completes when every open observation has a nearest
    centroid. *)
Lemma seedScan_completes idx clusters rest : forall i nodeDistance nodeIdx,
  (forall (j : nat) y, rest !! j = Some y -> i + Z.of_nat j ∉ idx ->
                       exists d, seedDistance k y clusters = Ok d) ->
  exists nd ni,
    seedScan k rest i idx clusters nodeDistance nodeIdx = Ok (nd, ni).
Proof.
  induction rest as [|x rest IH]; intros i nd ni Hall; [simpl; eauto|].
  rewrite seedScan_cons.
  assert (Hrest : forall (j : nat) y, rest !! j = Some y ->
            i + 1 + Z.of_nat j ∉ idx ->
            exists d, seedDistance k y clusters = Ok d).
  { intros j y Hj Hnot. apply (Hall (S j)); [done|].
    by replace (i + Z.of_nat (S j)) with (i + 1 + Z.of_nat j) by lia. }
  destruct (in_ i idx) eqn:Hin; [by apply IH|].
  destruct (Hall 0%nat x) as [d Hd]; [done| |].
  { apply in_not_elem_of. by replace (i + Z.of_nat 0) with i by lia. }
  rewrite Hd. simpl. destruct (fgt d nd); by apply IH.
Qed.

(** When some centroid is below [MaxFloat64], the seeding distance of
    [x] is the distance to a centroid that none is strictly closer
    than. *)
Lemma seedDistance_found x clusters :
  (exists c, c ∈ clusters /\ flt (dist_to k x c) MaxFloat64 = true) ->
  exists c,
    c ∈ clusters /\ seedDistance k x clusters = Ok (dist_to k x c) /\
    forall c', c' ∈ clusters -> flt (dist_to k x c') (dist_to k x c) = false.
Proof.
  intros H.
  destruct (nearestCluster_found k x clusters H) as (i & c & Hi & Hl & _ & Hmin & _).
  exists c. split; [eapply list_elem_of_lookup_2; eauto|]. split; [|done].
  unfold seedDistance. by rewrite Hi, (index_of_nat _ _ _ Hl).
Qed.

Lemma seedDistance_Ok_below x clusters d :
  seedDistance k x clusters = Ok d ->
  exists c, c ∈ clusters /\ flt (dist_to k x c) MaxFloat64 = true.
Proof.
  unfold seedDistance.
  destruct (nearestCluster_spec k x clusters)
    as [[-> _]|(i & c & _ & Hl & Hlt & _)]; intros H.
  - by rewrite index_neg in H by lia.
  - exists c. split; [eapply list_elem_of_lookup_2; eauto | done].
Qed.

(** A scan that completes has found a nearest centroid for every open
    observation it visited. *)
Lemma seedScan_Ok_open idx clusters rest : forall i nodeDistance nodeIdx res,
  seedScan k rest i idx clusters nodeDistance nodeIdx = Ok res ->
  forall (j : nat) y, rest !! j = Some y -> i + Z.of_nat j ∉ idx ->
    exists d, seedDistance k y clusters = Ok d.
Proof.
  induction rest as [|x rest IH]; intros i nd ni res H j y Hj Hnot;
    [by rewrite lookup_nil in Hj|].
  rewrite seedScan_cons in H.
  assert (Hrest : forall nd' ni',
            seedScan k rest (i + 1) idx clusters nd' ni' = Ok res ->
            forall n, j = S n -> exists d, seedDistance k y clusters = Ok d).
  { intros nd' ni' H' n ->. apply (IH _ _ _ _ H' n y); [done|].
    by replace (i + 1 + Z.of_nat n) with (i + Z.of_nat (S n)) by lia. }
  destruct (in_ i idx) eqn:Hin.
  - destruct j as [|n]; [|by eapply Hrest].
    apply in_elem_of in Hin. rewrite Z.add_0_r in Hnot. done.
  - destruct (seedDistance k x clusters) as [d|p] eqn:Hd; simpl in H;
      [|discriminate].
    destruct j as [|n].
    + injection Hj as <-. eauto.
    + destruct (fgt d nd); by eapply Hrest.
Qed.

(** A completed round appends one open position and its observation. *)
Lemma seedRound_Ok idx clusters idx' clusters' :
  seedRound k idx clusters = Ok (idx', clusters') ->
  exists (i : nat) x nd,
    seedScan k (data k) 0 idx clusters neg_one (-1) = Ok (nd, Z.of_nat i) /\
    idx' = idx ++ [Z.of_nat i] /\
    clusters' = clusters ++ [{| Centroid := x; Nodes := [] |}] /\
    data k !! i = Some x /\ Z.of_nat i ∉ idx.
Proof.
  unfold seedRound. intros H.
  destruct (seedScan k (data k) 0 idx clusters neg_one (-1))
    as [[nd ni]|p] eqn:Hscan; simpl in H; [|discriminate].
  destruct (index (data k) ni) as [x|p] eqn:Hx; simpl in H; [|discriminate].
  injection H as <- <-.
  apply seedScan_data_inv in Hscan as Hinv.
  destruct Hinv as [_ [[-> _]|(i & x0 & -> & Hnot & Hl & _)]].
  - by rewrite index_neg in Hx.
  - rewrite (index_of_nat _ _ _ Hl) in Hx. injection Hx as <-.
    exists i, x0, nd. auto.
Qed.

Lemma seed_inv_first r x :
  index (data k) r = Ok x ->
  seed_inv k [r] [{| Centroid := x; Nodes := [] |}].
Proof.
  intros H. split; [apply NoDup_singleton|].
  by constructor; [|constructor].
Qed.

Lemma seed_inv_round idx clusters idx' clusters' :
  seed_inv k idx clusters ->
  seedRound k idx clusters = Ok (idx', clusters') ->
  seed_inv k idx' clusters'.
Proof.
  intros [Hnd Hall] (i & x & nd & _ & -> & -> & Hl & Hnot)%seedRound_Ok.
  split.
  - apply list.NoDup_app. split; [done|]. split; [|apply NoDup_singleton].
    intros j Hj ->%list_elem_of_singleton. done.
  - apply Forall2_app; [done|]. constructor; [|constructor].
    split; [|done]. by apply index_of_nat.
Qed.

Lemma seed_inv_length idx clusters :
  seed_inv k idx clusters -> length idx = length clusters.
Proof. intros [_ H]. eapply Forall2_length; eauto. Qed.

Lemma seed_inv_range idx clusters i :
  seed_inv k idx clusters -> i ∈ idx -> 0 <= i < Z.of_nat (length (data k)).
Proof.
  intros [_ H] Hi. apply list_elem_of_lookup in Hi as [n Hn].
  destruct (Forall2_lookup_l _ _ _ _ _ H Hn) as (c & _ & Hc & _).
  eapply index_Ok_lt; eauto.
Qed.

Lemma seed_inv_submseteq idx clusters :
  seed_inv k idx clusters -> idx ⊆+ seqZ 0 (Z.of_nat (length (data k))).
Proof.
  intros H. apply NoDup_submseteq; [apply H|].
  intros i Hi. apply elem_of_seqZ. pose proof (seed_inv_range _ _ _ H Hi). lia.
Qed.

(** No more positions can be chosen than there are observations. *)
Lemma seed_inv_bound idx clusters :
  seed_inv k idx clusters -> (length clusters <= length (data k))%nat.
Proof.
  intros H. rewrite <- (seed_inv_length _ _ H).
  apply seed_inv_submseteq, submseteq_length in H.
  rewrite length_seqZ in H. lia.
Qed.

(** Once as many positions are chosen as there are observations, every
    position is chosen. *)
Lemma seed_inv_full idx clusters (j : nat) :
  seed_inv k idx clusters -> length clusters = length (data k) ->
  (j < length (data k))%nat -> Z.of_nat j ∈ idx.
Proof.
  intros H Hlen Hj. pose proof (seed_inv_submseteq _ _ H) as Hsub.
  apply submseteq_length_Permutation in Hsub.
  - rewrite Hsub. apply elem_of_seqZ. lia.
  - rewrite length_seqZ, (seed_inv_length _ _ H). lia.
Qed.

(** While fewer are chosen, some position is still open. *)
Lemma seed_inv_open idx clusters :
  seed_inv k idx clusters -> (length clusters < length (data k))%nat ->
  exists (j : nat) y, data k !! j = Some y /\ Z.of_nat j ∉ idx.
Proof.
  intros H Hlen.
  destruct (decide (Forall (fun i => i ∈ idx)
                      (seqZ 0 (Z.of_nat (length (data k)))))) as [Hall|Hex].
  - exfalso. rewrite list.Forall_forall in Hall.
    apply NoDup_submseteq in Hall; [|apply NoDup_seqZ].
    apply submseteq_length in Hall.
    rewrite length_seqZ, (seed_inv_length _ _ H) in Hall. lia.
  - apply not_Forall_Exists in Hex; [|apply _].
    apply list.Exists_exists in Hex as (i & [Hi0 Hi1]%elem_of_seqZ & Hnot).
    destruct (lookup_lt_is_Some_2 (data k) (Z.to_nat i)) as [y Hy]; [lia|].
    exists (Z.to_nat i), y. split; [done|]. by rewrite Z2Nat.id.
Qed.

Lemma seed_reachable_inv r idx clusters :
  seed_reachable k r idx clusters -> seed_inv k idx clusters.
Proof.
  induction 1 as [x Hx|idx clusters idx' clusters' _ IH Hround].
  - by apply seed_inv_first.
  - eapply seed_inv_round; eauto.
Qed.

Section Round.

Variables (idx : list Z) (clusters : list (Cluster T)).

Hypothesis distance_nonneg :
  forall a b, fle zero (distance k a b) = true.

Hypothesis open_below :
  forall (j : nat) y, data k !! j = Some y -> Z.of_nat j ∉ idx ->
    exists c, c ∈ clusters /\ flt (dist_to k y c) MaxFloat64 = true.

Lemma dist_to_not_nan x c : is_nan (dist_to k x c) = false.
Proof. eapply fle_not_nan_r, distance_nonneg. Qed.

Lemma seedDistance_nearest (j : nat) y :
  data k !! j = Some y -> Z.of_nat j ∉ idx ->
  exists d, seedDistance k y clusters = Ok d /\
            fgt d neg_one = true /\ is_nan d = false /\
            nearest_distance k y clusters d.
Proof.
  intros Hj Hnot.
  destruct (seedDistance_found y clusters (open_below j y Hj Hnot))
    as (c & Hc & Hd & Hmin).
  exists (dist_to k y c). split; [done|].
  split; [apply nonneg_gt_neg_one, distance_nonneg|].
  split; [apply dist_to_not_nan|].
  split; [by exists c|].
  intros c' Hc'. apply not_flt_fle; auto using dist_to_not_nan.
Qed.

Lemma nearest_distance_fle y d d' :
  nearest_distance k y clusters d -> nearest_distance k y clusters d' ->
  fle d d' = true.
Proof. intros [_ Hmin] [(c & Hc & ->) _]. by apply Hmin. Qed.

(** A round of the seeding loop appends the open observation that is
    farthest from its nearest centroid, the first such one. *)
Lemma seedRound_farthest :
  (exists (j : nat) y, data k !! j = Some y /\ Z.of_nat j ∉ idx) ->
  exists (i : nat) x di,
    seedRound k idx clusters =
      Ok (idx ++ [Z.of_nat i],
          clusters ++ [{| Centroid := x; Nodes := [] |}]) /\
    data k !! i = Some x /\ (Z.of_nat i ∉ idx) /\
    nearest_distance k x clusters di /\
    forall (j : nat) y dj,
      data k !! j = Some y -> Z.of_nat j ∉ idx ->
      nearest_distance k y clusters dj ->
      fle dj di = true /\ ((j < i)%nat -> flt dj di = true).
Proof.
  intros (j0 & y0 & Hj0 & Hnot0).
  destruct (seedScan_completes idx clusters (data k) 0 neg_one (-1))
    as (nd & ni & Hscan).
  { intros j y Hj Hnot. rewrite Z.add_0_l in Hnot.
    destruct (seedDistance_nearest j y Hj Hnot) as (d & Hd & _). eauto. }
  pose proof (seedScan_data_inv idx clusters nd ni Hscan) as [Hmax Hni].
  destruct Hni as [[-> ->]|(i & x & -> & Hnot & Hl & Hd & Hgt & Hlow)].
  { destruct (seedDistance_nearest j0 y0 Hj0 Hnot0) as (d & Hd & Hgt & _).
    by rewrite (Hmax j0 y0 d Hj0 Hnot0 Hd) in Hgt. }
  destruct (seedDistance_nearest i x Hl Hnot) as (d & Hd' & _ & Hnan & Hnear).
  rewrite Hd in Hd'. injection Hd' as <-.
  exists i, x, nd. split.
  { unfold seedRound. rewrite Hscan. simpl.
    by rewrite (index_of_nat _ _ _ Hl). }
  do 3 (split; [done|]).
  intros j y dj Hj Hnotj Hdj.
  destruct (seedDistance_nearest j y Hj Hnotj) as (d & Hd' & _ & Hnan' & Hnear').
  pose proof (nearest_distance_fle y dj d Hdj Hnear') as Hle.
  split.
  - eapply fle_trans; [exact Hle|].
    apply not_flt_fle; [done..|]. exact (Hmax j y d Hj Hnotj Hd').
  - intros Hlt. eapply fle_flt_trans; [exact Hle|].
    apply not_fle_flt; [done..|]. exact (Hlow j y d Hlt Hj Hnotj Hd').
Qed.

End Round.

(** *** The loop *)

Lemma seedLoop_done fuel numClusters idx clusters :
  (numClusters <= length clusters)%nat ->
  seedLoop k fuel numClusters idx clusters = Some (Ok (idx, clusters)).
Proof.
  intros H. destruct fuel; simpl;
    (destruct (Nat.ltb_spec (length clusters) numClusters); [lia|done]).
Qed.

Lemma seedLoop_step fuel numClusters idx clusters :
  (length clusters < numClusters)%nat ->
  seedLoop k (S fuel) numClusters idx clusters =
  match seedRound k idx clusters with
  | Panic p => Some (Panic p)
  | Ok (idx', clusters') => seedLoop k fuel numClusters idx' clusters'
  end.
Proof.
  intros H. simpl.
  destruct (Nat.ltb_spec (length clusters) numClusters); [done|lia].
Qed.

Lemma seedRound_length idx clusters idx' clusters' :
  seedRound k idx clusters = Ok (idx', clusters') ->
  length clusters' = S (length clusters).
Proof.
  intros (i & x & nd & _ & _ & -> & _)%seedRound_Ok.
  rewrite length_app. simpl. lia.
Qed.

(** Whatever the loop returns satisfies the invariant and has the
    requested number of clusters. *)
Lemma seedLoop_inv numClusters fuel : forall idx clusters idx' clusters',
  seed_inv k idx clusters ->
  (length clusters <= numClusters)%nat ->
  seedLoop k fuel numClusters idx clusters = Some (Ok (idx', clusters')) ->
  seed_inv k idx' clusters' /\ length clusters' = numClusters.
Proof.
  induction fuel as [|fuel IH]; intros idx clusters idx' clusters' Hinv Hle H.
  - simpl in H.
    destruct (Nat.ltb_spec (length clusters) numClusters); [done|].
    injection H as <- <-. split; [done|lia].
  - destruct (decide (length clusters < numClusters)%nat) as [Hlt|Hge].
    + rewrite seedLoop_step in H by done.
      destruct (seedRound k idx clusters) as [[idx1 clusters1]|p] eqn:Hround;
        [|discriminate].
      apply (IH idx1 clusters1); [eapply seed_inv_round; eauto| |done].
      rewrite (seedRound_length _ _ _ _ Hround). lia.
    + rewrite seedLoop_done in H by lia. injection H as <- <-.
      split; [done|lia].
Qed.

(** Every round appends a cluster or panics, so the loop is left after
    at most [numClusters - len(clusters)] rounds. *)
Lemma seedLoop_terminates numClusters fuel : forall idx clusters,
  (numClusters - length clusters <= fuel)%nat ->
  seedLoop k fuel numClusters idx clusters <> None.
Proof.
  induction fuel as [|fuel IH]; intros idx clusters Hfuel.
  - by rewrite seedLoop_done by lia.
  - destruct (decide (length clusters < numClusters)%nat) as [Hlt|Hge].
    + rewrite seedLoop_step by done.
      destruct (seedRound k idx clusters) as [[idx1 clusters1]|p] eqn:Hround;
        [|done].
      apply IH. rewrite (seedRound_length _ _ _ _ Hround). lia.
    + by rewrite seedLoop_done by lia.
Qed.

End Seeding.

(** ** Panics of the seeding loop *)

Section SeedingPanics.

Context {T : Type} (k : KMeans T).
Implicit Types (idx : list Z) (clusters : list (Cluster T)).

Lemma nearest_index_panic x clusters p :
  index clusters (nearestCluster k x clusters) = Panic p -> is_minus_one p.
Proof.
  destruct (nearestCluster_spec k x clusters)
    as [[-> _]|(i & c & -> & Hl & _)]; intros H.
  - rewrite index_neg in H by lia. injection H as <-. by eexists.
  - by rewrite (index_of_nat _ _ _ Hl) in H.
Qed.

Lemma seedScan_panic idx clusters rest : forall i nodeDistance nodeIdx p,
  seedScan k rest i idx clusters nodeDistance nodeIdx = Panic p ->
  is_minus_one p.
Proof.
  induction rest as [|x rest IH]; intros i nd ni p H; simpl in H; [done|].
  destruct (in_ i idx); [eauto|].
  destruct (index clusters (nearestCluster k x clusters)) as [c|q] eqn:E;
    simpl in H.
  - destruct (fgt _ nd); eauto.
  - injection H as <-. eapply nearest_index_panic; eauto.
Qed.

Lemma seedRound_panic idx clusters p :
  seedRound k idx clusters = Panic p -> is_minus_one p.
Proof.
  unfold seedRound. intros H.
  destruct (seedScan k (data k) 0 idx clusters neg_one (-1))
    as [[nd ni]|q] eqn:Hscan; simpl in H.
  - destruct (index (data k) ni) as [x|q] eqn:Hx; simpl in H; [done|].
    injection H as <-.
    apply seedScan_data_inv in Hscan
      as [_ [[-> _]|(i & x & -> & _ & Hl & _)]].
    + rewrite index_neg in Hx by lia. injection Hx as <-. by eexists.
    + by rewrite (index_of_nat _ _ _ Hl) in Hx.
  - injection H as <-. eapply seedScan_panic; eauto.
Qed.

(** With every position chosen the round reads [k.data[-1]]. *)
Lemma seedRound_full idx clusters :
  seed_inv k idx clusters -> length clusters = length (data k) ->
  seedRound k idx clusters =
  Panic (index_out_of_range (-1) (length (data k))).
Proof.
  intros Hinv Hlen. unfold seedRound.
  rewrite seedScan_all_chosen.
  - unfold mbind, result_bind.
    by rewrite (index_neg (data k) (-1)) by lia.
  - intros j Hj. rewrite Z.add_0_l. eapply seed_inv_full; eauto.
Qed.

(** Asked for more clusters than there are observations, the loop
    panics within [len(k.data) - len(clusters) + 1] rounds. *)
Lemma seedLoop_overflow numClusters fuel : forall idx clusters,
  seed_inv k idx clusters ->
  (length (data k) < numClusters)%nat ->
  (length (data k) - length clusters < fuel)%nat ->
  exists p, seedLoop k fuel numClusters idx clusters = Some (Panic p) /\
            is_minus_one p.
Proof.
  induction fuel as [|fuel IH]; intros idx clusters Hinv Hn Hfuel; [lia|].
  pose proof (seed_inv_bound k _ _ Hinv) as Hbound.
  rewrite seedLoop_step by lia.
  destruct (seedRound k idx clusters) as [[idx1 clusters1]|p] eqn:Hround.
  - destruct (decide (length clusters = length (data k))) as [Heq|Hne].
    { by rewrite seedRound_full in Hround. }
    apply IH; [eapply seed_inv_round; eauto|done|].
    rewrite (seedRound_length k _ _ _ _ Hround). lia.
  - exists p. split; [done|]. eapply seedRound_panic; eauto.
Qed.

(** Within the range, and with distances that are non-negative and
    below [MaxFloat64], the loop returns. *)
Lemma seedLoop_returns numClusters fuel : forall idx clusters,
  (forall a b, fle zero (distance k a b) = true) ->
  (forall a b, flt (distance k a b) MaxFloat64 = true) ->
  seed_inv k idx clusters -> clusters <> [] ->
  (numClusters <= length (data k))%nat ->
  (numClusters - length clusters <= fuel)%nat ->
  exists idx' clusters',
    seedLoop k fuel numClusters idx clusters = Some (Ok (idx', clusters')).
Proof.
  induction fuel as [|fuel IH];
    intros idx clusters Hnn Hmax Hinv Hne Hn Hfuel.
  - rewrite seedLoop_done by lia. eauto.
  - destruct (decide (length clusters < numClusters)%nat) as [Hlt|Hge].
    2:{ rewrite seedLoop_done by lia. eauto. }
    rewrite seedLoop_step by done.
    destruct (seedRound_farthest k idx clusters Hnn)
      as (i & x & di & Hround & _).
    { intros j y _ _. destruct clusters as [|c clusters]; [done|].
      exists c. split; [left|apply Hmax]. }
    { apply (seed_inv_open k idx clusters); [done|lia]. }
    rewrite Hround. apply IH; try done.
    + eapply seed_inv_round; eauto.
    + by destruct clusters.
    + rewrite length_app. simpl. lia.
Qed.

End SeedingPanics.

(** ** The refinement loop *)

Section Refine.

Context {T : Type} (k : KMeans T).
Implicit Types (clusters : list (Cluster T)).

Lemma update_spec rest : forall changedInIteration,
  update k rest changedInIteration =
  (recenter k <$> rest, changedInIteration || some_unchanged k rest).
Proof.
  induction rest as [|c rest IH]; intros ch; simpl.
  - by rewrite orb_false_r.
  - rewrite IH. by rewrite orb_assoc.
Qed.

(** The flag an iteration hands to the loop test is [true] exactly when
    some centroid did not move. *)
Lemma iteration_spec clusters clusters' changed :
  iteration k clusters = Ok (clusters', changed) ->
  exists assigned,
    assign k (data k) clusters = Ok assigned /\
    clusters' = recenter k <$> assigned /\
    changed = some_unchanged k assigned.
Proof.
  unfold iteration. intros H.
  destruct (assign k (data k) clusters) as [assigned|p]; simpl in H;
    [|discriminate].
  rewrite update_spec in H. injection H as <- <-. eauto.
Qed.

Lemma iteration_length clusters clusters' changed :
  iteration k clusters = Ok (clusters', changed) ->
  length clusters' = length clusters.
Proof.
  intros (assigned & Ha & -> & _)%iteration_spec.
  rewrite length_fmap. symmetry.
  eapply Forall2_length, assign_extends; eauto.
Qed.

Lemma partition_loop_step fuel clusters :
  partition_loop k (S fuel) true clusters =
  match iteration k clusters with
  | Panic p => Some (Panic p)
  | Ok (clusters', changedInIteration) =>
      partition_loop k fuel changedInIteration clusters'
  end.
Proof. done. Qed.

Lemma partition_loop_false fuel clusters :
  partition_loop k fuel false clusters = Some (Ok clusters).
Proof. by destruct fuel. Qed.

Lemma partition_loop_length fuel : forall changed clusters clusters',
  partition_loop k fuel changed clusters = Some (Ok clusters') ->
  length clusters' = length clusters.
Proof.
  induction fuel as [|fuel IH]; intros [] clusters clusters' H;
    try (rewrite partition_loop_false in H; by injection H as <-);
    [done|].
  rewrite partition_loop_step in H.
  destruct (iteration k clusters) as [[clusters1 ch]|p] eqn:Hit;
    [|discriminate].
  rewrite (IH _ _ _ H). eapply iteration_length; eauto.
Qed.

(** Requests for no cluster and for one cluster are seeded alike. *)
Lemma initClustersIdx_small fuel r numClusters x :
  (numClusters <= 1)%nat -> index (data k) r = Ok x ->
  initClustersIdx k fuel r numClusters =
  Some (Ok ([r], [{| Centroid := x; Nodes := [] |}])).
Proof.
  intros Hn Hx. unfold initClustersIdx. rewrite Hx.
  apply seedLoop_done. simpl. lia.
Qed.

(** With one cluster and every observation below [MaxFloat64] from its
    centroid, one iteration gathers the whole collection and takes its
    mean; the flag it returns is [equals] of the seed and that mean. *)
Lemma single_cluster_iteration x :
  (forall y, y ∈ data k -> flt (distance k y x) MaxFloat64 = true) ->
  iteration k [{| Centroid := x; Nodes := [] |}] =
  Ok ([{| Centroid := mean k (data k); Nodes := data k |}],
      equals k x (mean k (data k))).
Proof.
  intros Hbelow. unfold iteration. rewrite assign_spec.
  2:{ intros y Hy. eexists. split; [left|]. by apply Hbelow. }
  assert (assigned k [{| Centroid := x; Nodes := [] |}] (data k) 0 = data k)
    as Hall.
  { unfold assigned. revert Hbelow.
    induction (data k) as [|y l IH]; intros Hbelow; [done|].
    rewrite filter_cons, decide_True.
    - f_equal. apply IH. intros z Hz. apply Hbelow. by right.
    - unfold nearestCluster. simpl. rewrite Hbelow by left. done. }
  unfold mbind, result_bind. rewrite update_spec. simpl.
  by rewrite Hall, orb_false_r.
Qed.

(** So [Calculate(1)] returns that cluster when the seed differs from
    the mean of the collection. *)
Lemma single_cluster_moved fuel r x :
  index (data k) r = Ok x ->
  (forall y, y ∈ data k -> flt (distance k y x) MaxFloat64 = true) ->
  equals k x (mean k (data k)) = false ->
  Calculate k (S fuel) r 1 =
  Some (Ok [{| Centroid := mean k (data k); Nodes := data k |}]).
Proof.
  intros Hx Hbelow Hmoved. unfold Calculate, initClusters.
  rewrite (initClustersIdx_small (S fuel) r 1 x) by done.
  unfold partition. rewrite partition_loop_step.
  rewrite single_cluster_iteration, Hmoved by done.
  apply partition_loop_false.
Qed.

End Refine.

(** ** Fuel *)

(** A result reached with some fuel is the result at every larger fuel:
    [Some] is what the run produces, [None] at every fuel is a run that
    never leaves its loop. *)
Section Fuel.

Context {T : Type} (k : KMeans T).

Lemma seedLoop_mono numClusters fuel : forall fuel' idx clusters res,
  seedLoop k fuel numClusters idx clusters = Some res ->
  (fuel <= fuel')%nat ->
  seedLoop k fuel' numClusters idx clusters = Some res.
Proof.
  induction fuel as [|fuel IH]; intros fuel' idx clusters res H Hle.
  - destruct (decide (length clusters < numClusters)%nat) as [Hlt|Hge].
    + simpl in H.
      by destruct (Nat.ltb_spec (length clusters) numClusters); [|lia].
    + rewrite seedLoop_done in H by lia. by rewrite seedLoop_done by lia.
  - destruct (decide (length clusters < numClusters)%nat) as [Hlt|Hge].
    + destruct fuel' as [|fuel']; [lia|].
      rewrite seedLoop_step in H by done. rewrite seedLoop_step by done.
      destruct (seedRound k idx clusters) as [[idx1 clusters1]|p]; [|done].
      apply IH; [done|lia].
    + rewrite seedLoop_done in H by lia. by rewrite seedLoop_done by lia.
Qed.

Lemma partition_loop_mono fuel : forall fuel' changed clusters res,
  partition_loop k fuel changed clusters = Some res ->
  (fuel <= fuel')%nat ->
  partition_loop k fuel' changed clusters = Some res.
Proof.
  induction fuel as [|fuel IH]; intros fuel' [] clusters res H Hle;
    try (rewrite partition_loop_false in H; by rewrite partition_loop_false);
    [done|].
  destruct fuel' as [|fuel']; [lia|].
  rewrite partition_loop_step in H. rewrite partition_loop_step.
  destruct (iteration k clusters) as [[clusters1 ch]|p]; [|done].
  apply IH; [done|lia].
Qed.

Lemma Calculate_mono fuel fuel' r numClusters res :
  Calculate k fuel r numClusters = Some res ->
  (fuel <= fuel')%nat ->
  Calculate k fuel' r numClusters = Some res.
Proof.
  unfold Calculate, initClusters, initClustersIdx. intros H Hle.
  destruct (index (data k) r) as [x|p]; [|done].
  destruct (seedLoop k fuel numClusters _ _) as [seeded|] eqn:Hseed;
    [|done].
  rewrite (seedLoop_mono _ _ fuel' _ _ _ Hseed Hle).
  destruct seeded as [[idx clusters]|p]; [|done].
  by apply (partition_loop_mono fuel).
Qed.

(** How the loop of [partition] goes on after a completed assignment:
    it runs again when some centroid did not move, and returns when
    all of them moved. *)
Lemma partition_unfold fuel clusters assigned :
  assign k (data k) clusters = Ok assigned ->
  partition k (S fuel) clusters =
  if some_unchanged k assigned
  then partition k fuel (recenter k <$> assigned)
  else Some (Ok (recenter k <$> assigned)).
Proof.
  intros H. unfold partition. rewrite partition_loop_step.
  unfold iteration. rewrite H. simpl. rewrite update_spec. simpl.
  destruct (some_unchanged k assigned); [done|].
  by rewrite partition_loop_false.
Qed.

End Fuel.

(** ** Runs of the one-dimensional instance *)

Module LineRuns.

Import Line LineFacts.

(** On the single observation [2] an iteration appends it once more,
    leaves the centroid at 2 and asks for another iteration. *)
Lemma single_iteration n :
  sum n = 2 * Z.of_nat (length n) ->
  iteration (line [2]) [{| Centroid := 2; Nodes := n |}] =
  Ok ([{| Centroid := 2; Nodes := n ++ [2] |}], true).
Proof.
  intros H.
  assert (avg (n ++ [2]) = 2) as Havg.
  { apply avg_balanced; [by destruct n|].
    rewrite sum_app, length_app. simpl. lia. }
  change (iteration (line [2]) [{| Centroid := 2; Nodes := n |}])
    with (Ok ([{| Centroid := avg (n ++ [2]); Nodes := n ++ [2] |}],
              2 =? avg (n ++ [2]))).
  by rewrite Havg.
Qed.

Lemma single_diverges fuel : forall n,
  sum n = 2 * Z.of_nat (length n) ->
  partition_loop (line [2]) fuel true [{| Centroid := 2; Nodes := n |}] = None.
Proof.
  induction fuel as [|fuel IH]; intros n H; [done|].
  rewrite partition_loop_step, single_iteration by done.
  apply IH. rewrite sum_app, length_app. simpl. lia.
Qed.

(** The same on [1; 2; 3] when the draw is the middle observation. *)
Lemma middle_iteration n :
  sum n = 2 * Z.of_nat (length n) ->
  iteration (line [1; 2; 3]) [{| Centroid := 2; Nodes := n |}] =
  Ok ([{| Centroid := 2; Nodes := ((n ++ [1]) ++ [2]) ++ [3] |}], true).
Proof.
  intros H.
  assert (avg (((n ++ [1]) ++ [2]) ++ [3]) = 2) as Havg.
  { apply avg_balanced; [by destruct n|].
    rewrite !sum_app, !length_app. simpl. lia. }
  change (iteration (line [1; 2; 3]) [{| Centroid := 2; Nodes := n |}])
    with (Ok ([{| Centroid := avg (((n ++ [1]) ++ [2]) ++ [3]);
                  Nodes := ((n ++ [1]) ++ [2]) ++ [3] |}],
              2 =? avg (((n ++ [1]) ++ [2]) ++ [3]))).
  by rewrite Havg.
Qed.

Lemma middle_diverges fuel : forall n,
  sum n = 2 * Z.of_nat (length n) ->
  partition_loop (line [1; 2; 3]) fuel true
    [{| Centroid := 2; Nodes := n |}] = None.
Proof.
  induction fuel as [|fuel IH]; intros n H; [done|].
  rewrite partition_loop_step, middle_iteration by done.
  apply IH. rewrite !sum_app, !length_app. simpl. lia.
Qed.

End LineRuns.

(** ** Properties of the package *)

Import Line LineFacts LineRuns.

(** C5. [NewKMeans] returns an error, and no object, exactly when the
    observation collection is empty; for every non-empty collection it
    returns the object holding the collection and the three functions. *)
Theorem NewKMeans_fails_iff_empty_C5 (T : Type) (obs : list T)
    (d : DistanceFn T) (m : MeanFn T) (e : EqualsFn T) (now : Z) :
  ((exists err, NewKMeans obs d m e now = inr err) <-> obs = []) /\
  (NewKMeans obs d m e now = inl (mkKMeans obs d m e now) <-> obs <> []).
Proof.
  unfold NewKMeans. destruct obs as [|x obs]; simpl.
  - split; split; try done. by eexists.
  - split; split; try done. by intros [err Herr].
Qed.

(** C9, amended. In an assignment step over clusters among which every
    observation has a centroid at a distance strictly below
    [math.MaxFloat64], the step completes and appends each observation to
    the cluster at the position [nearestCluster] returns for it; no
    centroid is strictly closer to the observation than that cluster's,
    and every cluster at a lower position is strictly farther (or its
    distance is NaN), so among equally near clusters the lowest position
    receives the observation. *)
Theorem assignment_nearest_C9 (T : Type) (k : KMeans T)
    (clusters : list (Cluster T)) :
  (forall x, x ∈ data k ->
     exists c, c ∈ clusters /\ flt (dist_to k x c) MaxFloat64 = true) ->
  assign k (data k) clusters =
    Ok (imap (fun i c => addNodes c (assigned k clusters (data k) i)) clusters) /\
  forall x, x ∈ data k ->
    exists (i : nat) c,
      nearestCluster k x clusters = Z.of_nat i /\
      clusters !! i = Some c /\
      (forall c', c' ∈ clusters ->
                  flt (dist_to k x c') (dist_to k x c) = false) /\
      (forall (j : nat) c', (j < i)%nat -> clusters !! j = Some c' ->
                  fle (dist_to k x c') (dist_to k x c) = false).
Proof.
  intros Hbelow. split; [by apply assign_spec|].
  intros x Hx.
  destruct (nearestCluster_found k x clusters (Hbelow x Hx))
    as (i & c & Hi & Hl & _ & Hmin & Hlow).
  exists i, c. auto.
Qed.

Lemma assignment_nearest_C9_witness :
  assign six (data six) [seed 0; seed 12] =
    Ok [{| Centroid := 0; Nodes := [0; -5; 5] |};
        {| Centroid := 12; Nodes := [7; 8; 12] |}] /\
  nearestCluster six 5 [seed 0; seed 12] = 0.
Proof.
  destruct (assignment_nearest_C9 Z six [seed 0; seed 12]) as [Hassign Hnear].
  - intros x Hx. exists (seed 0). split; [left|].
    apply list_elem_of_In in Hx. simpl in Hx.
    repeat (destruct Hx as [<-|Hx]; [vm_compute; reflexivity|]).
    destruct Hx.
  - split; [rewrite Hassign; vm_compute; reflexivity|].
    vm_compute; reflexivity.
Defined.

(** C9 as stated fails when no centroid is below [math.MaxFloat64]: with
    the distance [far], observation 1 has the single cluster as its
    nearest one, yet [nearestCluster] returns [-1] and the assignment
    step panics instead of appending it. *)
Lemma assignment_C9_counterexample :
  fle zero (far 1 0) = true /\
  nearestCluster (apart [0; 1]) 1 [seed 0] = -1 /\
  assign (apart [0; 1]) [0; 1] [seed 0] = Panic (index_out_of_range (-1) 1) /\
  Calculate (apart [0; 1]) 1 0 1 = Some (Panic (index_out_of_range (-1) 1)).
Proof. repeat split; vm_compute; reflexivity. Qed.

(** C6. In every round of the seeding loop, for [numClusters] in
    [2, |observations|] and a non-negative distance function, the
    observation appended as the next centroid is at a position not yet
    chosen, and its distance to its nearest chosen centroid is maximal
    among the observations not yet chosen and strictly larger than that of
    every such observation at a lower position. The round appends one
    exactly when every observation not yet chosen has a chosen centroid
    at a distance below [math.MaxFloat64]; otherwise it panics and appends
    nothing. *)
Theorem seeding_round_farthest_C6 (T : Type) (k : KMeans T) (r : Z)
    (numClusters : nat) (idx : list Z) (clusters : list (Cluster T)) :
  (2 <= numClusters <= length (data k))%nat ->
  (forall a b, fle zero (distance k a b) = true) ->
  seed_reachable k r idx clusters ->
  (length clusters < numClusters)%nat ->
  ((exists res, seedRound k idx clusters = Ok res) <->
   (forall (j : nat) y, data k !! j = Some y -> Z.of_nat j ∉ idx ->
      exists c, c ∈ clusters /\ flt (dist_to k y c) MaxFloat64 = true)) /\
  (forall idx' clusters',
     seedRound k idx clusters = Ok (idx', clusters') ->
     exists (i : nat) x di,
       idx' = idx ++ [Z.of_nat i] /\
       clusters' = clusters ++ [{| Centroid := x; Nodes := [] |}] /\
       data k !! i = Some x /\ (Z.of_nat i ∉ idx) /\
       nearest_distance k x clusters di /\
       forall (j : nat) y dj,
         data k !! j = Some y -> Z.of_nat j ∉ idx ->
         nearest_distance k y clusters dj ->
         fle dj di = true /\ ((j < i)%nat -> flt dj di = true)).
Proof.
  intros [_ Hn] Hnn Hreach Hlen.
  assert (Hopen : exists (j : nat) y, data k !! j = Some y /\ Z.of_nat j ∉ idx).
  { apply (seed_inv_open k idx clusters); [|lia].
    eapply seed_reachable_inv; eauto. }
  assert (Hbelow : forall res, seedRound k idx clusters = Ok res ->
            forall (j : nat) y, data k !! j = Some y -> Z.of_nat j ∉ idx ->
              exists c, c ∈ clusters /\ flt (dist_to k y c) MaxFloat64 = true).
  { intros [idx' clusters'] (i & x & nd & Hscan & _)%seedRound_Ok j y Hj Hnot.
    destruct (seedScan_Ok_open k _ _ _ _ _ _ _ Hscan j y Hj) as [d Hd].
    - by rewrite Z.add_0_l.
    - eapply seedDistance_Ok_below; eauto. }
  split; [split|].
  - intros [res Hres]. by apply (Hbelow res).
  - intros Hb.
    destruct (seedRound_farthest k idx clusters Hnn Hb Hopen)
      as (i & x & di & Hround & _). eauto.
  - intros idx' clusters' Hround.
    destruct (seedRound_farthest k idx clusters Hnn (Hbelow _ Hround) Hopen)
      as (i & x & di & Hround' & H).
    rewrite Hround in Hround'. injection Hround' as -> ->.
    exists i, x, di. auto.
Qed.

Lemma seeding_round_farthest_C6_witness :
  seedRound six [0] [seed 0] = Ok ([0; 5], [seed 0; seed 12]) /\
  exists di, nearest_distance six 12 [seed 0] di.
Proof.
  assert (seedRound six [0] [seed 0] = Ok ([0; 5], [seed 0; seed 12])) as E
    by (vm_compute; reflexivity).
  split; [done|].
  destruct (seeding_round_farthest_C6 Z six 0 2 [0] [seed 0]) as [_ H].
  - simpl. lia.
  - apply dist_nonneg.
  - by apply seed_first.
  - simpl. lia.
  - destruct (H _ _ E) as (i & x & di & _ & Hx & _ & _ & Hdi & _).
    exists di. simpl in Hx. injection Hx as <-. done.
Defined.

(** The round that appends nothing: with the non-negative distance
    [far], which reaches [math.MaxFloat64], the first round on two
    observations finds no centroid for observation 1, reads
    [clusters[-1]] and panics. *)
Lemma seeding_round_far_panics :
  (forall a b, fle zero (far a b) = true) /\
  seed_reachable (apart [0; 1]) 0 [0] [seed 0] /\
  seedRound (apart [0; 1]) [0] [seed 0] = Panic (index_out_of_range (-1) 1) /\
  initClusters (apart [0; 1]) 2 0 2 = Some (Panic (index_out_of_range (-1) 1)).
Proof.
  split; [apply far_nonneg|]. split; [by apply seed_first|].
  split; vm_compute; reflexivity.
Qed.

(** C7. For a non-negative distance function, [1 <= numClusters <=
    |observations|] and a draw [r] within the collection, seeding leaves
    its loop within [numClusters] rounds, and whenever it returns, the
    [numClusters] centroids it produced are the observations at
    [numClusters] pairwise distinct positions: positions, not values, are
    compared. When moreover every distance is below [math.MaxFloat64] it
    does return. *)
Theorem seeding_positions_distinct_C7 (T : Type) (k : KMeans T) (r : Z)
    (numClusters : nat) :
  (forall a b, fle zero (distance k a b) = true) ->
  (1 <= numClusters <= length (data k))%nat ->
  0 <= r < Z.of_nat (length (data k)) ->
  (forall fuel, (numClusters <= fuel)%nat ->
     initClustersIdx k fuel r numClusters <> None) /\
  (forall fuel idx clusters,
     initClustersIdx k fuel r numClusters = Some (Ok (idx, clusters)) ->
     initClusters k fuel r numClusters = Some (Ok clusters) /\
     NoDup idx /\ length idx = numClusters /\ length clusters = numClusters /\
     Forall2 (fun i c => index (data k) i = Ok (Centroid c)) idx clusters) /\
  ((forall a b, flt (distance k a b) MaxFloat64 = true) ->
   forall fuel, (numClusters <= fuel)%nat ->
     exists idx clusters,
       initClustersIdx k fuel r numClusters = Some (Ok (idx, clusters))).
Proof.
  intros Hnn [Hn1 Hn] Hr.
  destruct (index_in_range (data k) r Hr) as [x Hx].
  pose proof (seed_inv_first k r x Hx) as Hinv.
  unfold initClusters, initClustersIdx. rewrite Hx.
  split; [|split].
  - intros fuel Hfuel. apply seedLoop_terminates. simpl. lia.
  - intros fuel idx clusters H. rewrite H. split; [done|].
    apply seedLoop_inv in H as [[Hnd Hall] Hlen]; [|done|simpl; lia].
    split; [done|]. split; [|split; [done|]].
    + rewrite <- Hlen. eapply Forall2_length; eauto.
    + eapply list.Forall2_impl; [exact Hall|]. by intros i c [? _].
  - intros Hmax fuel Hfuel.
    apply seedLoop_returns; try done. simpl. lia.
Qed.

Lemma seeding_positions_distinct_C7_witness :
  initClustersIdx (line [3; 3]) 2 0 2
    = Some (Ok ([0; 1], [seed 3; seed 3])) /\
  NoDup [0; 1].
Proof.
  assert (initClustersIdx (line [3; 3]) 2 0 2
            = Some (Ok ([0; 1], [seed 3; seed 3]))) as E
    by (vm_compute; reflexivity).
  split; [done|].
  destruct (seeding_positions_distinct_C7 Z (line [3; 3]) 0 2) as (_ & H & _).
  - apply dist_nonneg.
  - simpl. lia.
  - simpl. lia.
  - by destruct (H 2%nat _ _ E) as (_ & Hnd & _).
Defined.

(** C4, amended. With [numClusters > |observations|] the seeding
    procedure does terminate, by a run-time panic: within
    [|observations|] rounds it reads index [-1], at the latest in the
    round after every position has been chosen, where the scan finds no
    open position, [nodeIdx] stays [-1] and [k.data[-1]] is read. It
    never returns a cluster set. *)
Theorem seeding_overflow_panics_C4 (T : Type) (k : KMeans T) (r : Z)
    (numClusters fuel : nat) :
  0 <= r < Z.of_nat (length (data k)) ->
  (length (data k) < numClusters)%nat ->
  (length (data k) <= fuel)%nat ->
  exists n,
    initClusters k fuel r numClusters = Some (Panic (index_out_of_range (-1) n)).
Proof.
  intros Hr Hn Hfuel.
  destruct (index_in_range (data k) r Hr) as [x Hx].
  destruct (seedLoop_overflow k numClusters fuel [r]
              [{| Centroid := x; Nodes := [] |}])
    as (p & Hloop & n & ->).
  - by apply seed_inv_first.
  - done.
  - simpl. lia.
  - exists n. unfold initClusters, initClustersIdx. by rewrite Hx, Hloop.
Qed.

Lemma seeding_overflow_panics_C4_witness :
  exists n,
    initClusters six 6 0 7 = Some (Panic (index_out_of_range (-1) n)).
Proof.
  apply (seeding_overflow_panics_C4 Z six 0 7 6); simpl; lia.
Defined.

(** C4 as stated fails: asked for two clusters on one observation, the
    seeding loop is left in its first round by the panic of [k.data[-1]];
    it does not run forever. *)
Lemma seeding_overflow_C4_counterexample :
  initClusters (line [7]) 1 0 2 = Some (Panic (index_out_of_range (-1) 1)) /\
  ~ (forall fuel, initClusters (line [7]) fuel 0 2 = None).
Proof.
  assert (initClusters (line [7]) 1 0 2
            = Some (Panic (index_out_of_range (-1) 1))) as E
    by (vm_compute; reflexivity).
  split; [done|]. intros H. by rewrite H in E.
Qed.

(** C10, amended. For a draw [r] within the collection, seeding with
    [numClusters = 0] returns exactly one cluster, the drawn observation;
    [Calculate(0)] behaves as [Calculate(1)] does: the same result, the
    same panic, or no result, at every fuel; and whenever [Calculate(0)]
    returns, its cluster set has length exactly 1. *)
Theorem calculate_zero_as_one_C10 (T : Type) (k : KMeans T) (r : Z) :
  0 <= r < Z.of_nat (length (data k)) ->
  (exists x, index (data k) r = Ok x /\
     forall fuel,
       initClusters k fuel r 0 = Some (Ok [{| Centroid := x; Nodes := [] |}])) /\
  (forall fuel, Calculate k fuel r 0 = Calculate k fuel r 1) /\
  (forall fuel clusters,
     Calculate k fuel r 0 = Some (Ok clusters) -> length clusters = 1%nat).
Proof.
  intros Hr. destruct (index_in_range (data k) r Hr) as [x Hx].
  assert (Hinit : forall fuel n, (n <= 1)%nat ->
            initClusters k fuel r n =
            Some (Ok [{| Centroid := x; Nodes := [] |}])).
  { intros fuel n Hn. unfold initClusters.
    by rewrite (initClustersIdx_small k fuel r n x Hn Hx). }
  split; [|split].
  - exists x. split; [done|]. intros fuel. apply Hinit; lia.
  - intros fuel. unfold Calculate. by rewrite !Hinit by lia.
  - intros fuel clusters. unfold Calculate, partition.
    rewrite Hinit by lia. intros H.
    by rewrite (partition_loop_length k _ _ _ _ H).
Qed.

Lemma calculate_zero_as_one_C10_witness :
  Calculate (line [0; 10]) 1 0 0 = Calculate (line [0; 10]) 1 0 1 /\
  Calculate (line [0; 10]) 1 0 0
    = Some (Ok [{| Centroid := 5; Nodes := [0; 10] |}]).
Proof.
  destruct (calculate_zero_as_one_C10 Z (line [0; 10]) 0) as (_ & H & _).
  - simpl. lia.
  - split; [apply H|]. vm_compute. reflexivity.
Defined.

(** C10 as stated fails: on the single observation 2, with the integer
    average and exact equality, [Calculate(0)] returns nothing at all:
    every iteration leaves the centroid at 2 and the loop goes on. And
    on two observations with the distance [far] it panics in the first
    assignment step. *)
Lemma calculate_zero_C10_counterexample :
  ~ (exists fuel clusters,
       Calculate (line [2]) fuel 0 0 = Some (Ok clusters)) /\
  (forall fuel, Calculate (line [2]) fuel 0 0 = None) /\
  Calculate (apart [0; 1]) 1 0 0 = Some (Panic (index_out_of_range (-1) 1)).
Proof.
  assert (forall fuel, Calculate (line [2]) fuel 0 0 = None) as H.
  { intros fuel. unfold Calculate.
    replace (initClusters (line [2]) fuel 0 0)
      with (Some (Ok [{| Centroid := 2; Nodes := [] |}])).
    - by apply single_diverges.
    - symmetry. unfold initClusters.
      by rewrite (initClustersIdx_small (line [2]) fuel 0 0 2)
        by (lia || reflexivity). }
  split; [|split; [done|vm_compute; reflexivity]].
  intros (fuel & clusters & E). by rewrite H in E.
Qed.

(** C1 (the code departs from it). The flag that keeps the loop of
    [partition] running is set when [equals(old, new)] holds for some
    cluster, not when it fails. On the observations [0; 10] the only
    centroid moves from 0 to 5 in the first iteration and the loop stops
    at once; on the single observation [2] no centroid ever moves and
    the loop never stops. *)
Theorem partition_loop_test_inverted_C1 :
  (0 =? 5) = false /\
  iteration (line [0; 10]) [seed 0]
    = Ok ([{| Centroid := 5; Nodes := [0; 10] |}], false) /\
  (forall fuel, partition (line [0; 10]) (S fuel) [seed 0]
                = Some (Ok [{| Centroid := 5; Nodes := [0; 10] |}])) /\
  (2 =? 2) = true /\
  iteration (line [2]) [seed 2]
    = Ok ([{| Centroid := 2; Nodes := [2] |}], true) /\
  (forall fuel, partition (line [2]) fuel [seed 2] = None).
Proof.
  split; [done|]. split; [vm_compute; reflexivity|]. split.
  { intros fuel. apply (partition_loop_mono _ 1); [|lia].
    vm_compute. reflexivity. }
  split; [done|]. split; [vm_compute; reflexivity|].
  intros fuel. by apply single_diverges.
Qed.

(** C2 (the code departs from it). Nothing empties the member lists: on
    the six observations with draw 0 and two clusters, the first
    iteration leaves the members [0; -5; 5] and [7; 8; 12], and the
    assignment step of the second iteration appends to them, so the
    members of the first iteration are carried into the result. *)
Theorem members_carry_over_C2 :
  initClusters six 1 0 2 = Some (Ok [seed 0; seed 12]) /\
  iteration six [seed 0; seed 12]
    = Ok ([{| Centroid := 0; Nodes := [0; -5; 5] |};
           {| Centroid := 9; Nodes := [7; 8; 12] |}], true) /\
  assign six (data six)
      [{| Centroid := 0; Nodes := [0; -5; 5] |};
       {| Centroid := 9; Nodes := [7; 8; 12] |}]
    = Ok [{| Centroid := 0; Nodes := [0; -5; 5; 0; -5] |};
          {| Centroid := 9; Nodes := [7; 8; 12; 5; 7; 8; 12] |}] /\
  (forall fuel, (2 <= fuel)%nat ->
     Calculate six fuel 0 2
     = Some (Ok [{| Centroid := -1; Nodes := [0; -5; 5; 0; -5] |};
                 {| Centroid := 8; Nodes := [7; 8; 12; 5; 7; 8; 12] |}])).
Proof.
  do 3 (split; [vm_compute; reflexivity|]).
  intros fuel Hfuel. apply (Calculate_mono _ 2); [|done].
  vm_compute. reflexivity.
Qed.

(** C3 (the code departs from it). On the same run [Calculate] returns
    twelve members for six observations: the observation at position 2
    (the value 5, which occurs once in the input) is a member of both
    clusters, and the one at position 0 occurs twice in the first. *)
Theorem members_duplicated_C3 :
  exists c0 c1,
    Calculate six 2 0 2 = Some (Ok [c0; c1]) /\
    length (data six) = 6%nat /\
    length (Nodes c0 ++ Nodes c1) = 12%nat /\
    length (filter (fun x => x = 5) (data six)) = 1%nat /\
    length (filter (fun x => x = 5) (Nodes c0)) = 1%nat /\
    length (filter (fun x => x = 5) (Nodes c1)) = 1%nat /\
    length (filter (fun x => x = 0) (data six)) = 1%nat /\
    length (filter (fun x => x = 0) (Nodes c0)) = 2%nat.
Proof.
  exists {| Centroid := -1; Nodes := [0; -5; 5; 0; -5] |},
         {| Centroid := 8; Nodes := [7; 8; 12; 5; 7; 8; 12] |}.
  repeat split; vm_compute; reflexivity.
Qed.

(** C8 (the code departs from it). On the observations [1; 2; 3], with
    [|a - b|] as distance (zero on the diagonal), the integer average
    and exact equality, [Calculate(1)] with the middle observation drawn
    yields nothing: the centroid 2 equals the mean of the members in
    every iteration, which keeps the loop running, and the members grow
    by a copy of the collection each time. *)
Theorem single_cluster_never_returns_C8 :
  (forall x, dist x x = zero) /\
  initClusters (line [1; 2; 3]) 0 1 1 = Some (Ok [seed 2]) /\
  avg [1; 2; 3] = 2 /\
  iteration (line [1; 2; 3]) [seed 2]
    = Ok ([{| Centroid := 2; Nodes := [1; 2; 3] |}], true) /\
  iteration (line [1; 2; 3]) [{| Centroid := 2; Nodes := [1; 2; 3] |}]
    = Ok ([{| Centroid := 2; Nodes := [1; 2; 3; 1; 2; 3] |}], true) /\
  (forall fuel, Calculate (line [1; 2; 3]) fuel 1 1 = None).
Proof.
  split; [apply dist_self|].
  do 4 (split; [vm_compute; reflexivity|]).
  intros fuel. unfold Calculate.
  replace (initClusters (line [1; 2; 3]) fuel 1 1)
    with (Some (Ok [seed 2])).
  - by apply middle_diverges.
  - symmetry. unfold initClusters.
    by rewrite (initClustersIdx_small (line [1; 2; 3]) fuel 1 1 2)
      by (lia || reflexivity).
Qed.

(** ** Further properties of the package *)

Section Further.

Context {T : Type} (k : KMeans T).
Implicit Types (x y : T) (obs : list T) (idx : list Z).
Implicit Types (clusters centers : list (Cluster T)).

(** A completed assignment loop has found a centroid below
    [MaxFloat64] for every observation it visited. *)
Lemma assign_Ok_found centers obs : forall clusters clusters',
  Centroid <$> clusters = Centroid <$> centers ->
  assign k obs clusters = Ok clusters' ->
  forall x, x ∈ obs ->
    exists c, c ∈ centers /\ flt (dist_to k x c) MaxFloat64 = true.
Proof.
  induction obs as [|y obs IH]; intros clusters clusters' Hcen H x Hx;
    [by apply elem_of_nil in Hx|].
  simpl in H. unfold appendNode in H.
  destruct (index clusters (nearestCluster k y clusters)) as [c0|p] eqn:E;
    simpl in H; [|discriminate].
  apply index_Ok in E as [Hi Hl].
  rewrite (nearestCluster_centroids k y clusters centers Hcen) in Hi.
  apply elem_of_cons in Hx as [->|Hx].
  - destruct (nearestCluster_spec k y centers)
      as [[Hm _]|(i & c & _ & Hc & Hlt & _)]; [lia|].
    exists c. split; [eapply list_elem_of_lookup_2; eauto | done].
  - refine (IH _ clusters' _ H x Hx).
    etrans; [exact (insert_addNode_centroids clusters _ c0 y Hl) | done].
Qed.

Lemma assign_panic obs : forall clusters p,
  assign k obs clusters = Panic p ->
  p = index_out_of_range (-1) (length clusters).
Proof.
  induction obs as [|y obs IH]; intros clusters p H; [done|].
  simpl in H. unfold appendNode in H.
  destruct (nearestCluster_spec k y clusters)
    as [[Hm _]|(i & c & Hi & Hc & _)].
  - rewrite Hm, index_neg in H by lia. by injection H as <-.
  - rewrite Hi, (index_of_nat _ _ _ Hc) in H. simpl in H.
    apply IH in H. by rewrite length_insert in H.
Qed.

Lemma members_insert clusters : forall (i : nat) c x,
  clusters !! i = Some c ->
  members (<[i := addNode c x]> clusters) ≡ₚ x :: members clusters.
Proof.
  unfold members.
  induction clusters as [|c0 clusters IH]; intros [|i] c x H; try done.
  - injection H as ->. simpl.
    by rewrite <- (Permutation_cons_append (Nodes c) x).
  - simpl in H. simpl. rewrite (IH i c x H).
    symmetry. apply Permutation_middle.
Qed.



(** The seeding loop only appends to what it was entered with. *)
Lemma seedLoop_extends numClusters fuel : forall idx clusters idx' clusters',
  seedLoop k fuel numClusters idx clusters = Some (Ok (idx', clusters')) ->
  exists l l', idx' = idx ++ l /\ clusters' = clusters ++ l'.
Proof.
  induction fuel as [|fuel IH]; intros idx clusters idx' clusters' H.
  - simpl in H. destruct (length clusters <? numClusters)%nat; [done|].
    injection H as <- <-. exists [], []. by rewrite !app_nil_r.
  - simpl in H. destruct (length clusters <? numClusters)%nat.
    + destruct (seedRound k idx clusters) as [[idx1 clusters1]|q] eqn:Hround;
        [|done].
      apply seedRound_Ok in Hround as (i & x & nd & _ & -> & -> & _).
      destruct (IH _ _ _ _ H) as (l & l' & -> & ->).
      exists (Z.of_nat i :: l), ({| Centroid := x; Nodes := [] |} :: l').
      by rewrite <- !app_assoc.
    + injection H as <- <-. exists [], []. by rewrite !app_nil_r.
Qed.

Lemma assign_result_aux obs clusters clusters' :
  assign k obs clusters = Ok clusters' ->
  clusters' = imap (fun i c => addNodes c (assigned k clusters obs i)) clusters.
Proof.
  intros H.
  pose proof (assign_Ok_found clusters obs clusters clusters' eq_refl H)
    as Hfound.
  rewrite (assign_spec k obs clusters Hfound) in H. by injection H.
Qed.

End Further.

Section FurtherSeeding.

Context {T : Type} (k : KMeans T).
Implicit Types (idx : list Z) (clusters : list (Cluster T)).

Lemma seedLoop_seed_inv numClusters fuel : forall idx clusters idx' clusters',
  seed_inv k idx clusters ->
  seedLoop k fuel numClusters idx clusters = Some (Ok (idx', clusters')) ->
  seed_inv k idx' clusters'.
Proof.
  induction fuel as [|fuel IH]; intros idx clusters idx' clusters' Hinv H;
    simpl in H; destruct (length clusters <? numClusters)%nat;
    try done; try (by injection H as <- <-).
  destruct (seedRound k idx clusters) as [[idx1 clusters1]|q] eqn:Hround;
    [|done].
  eapply IH; [|exact H]. eapply seed_inv_round; eauto.
Qed.

Lemma omap_id_Some (l : list T) : omap id (Some <$> l) = l.
Proof. induction l as [|x l IH]; [done|]. simpl. by f_equal. Qed.

Lemma lookups_seqZ (l : list T) :
  (fun i => l !! Z.to_nat i) <$> seqZ 0 (Z.of_nat (length l)) = Some <$> l.
Proof.
  apply list_eq. intros i. rewrite !list_lookup_fmap.
  destruct (decide (i < length l)%nat) as [Hlt|Hge].
  - rewrite lookup_seqZ_lt by lia. simpl.
    replace (Z.to_nat (0 + Z.of_nat i)) with i by lia.
    destruct (lookup_lt_is_Some_2 l i Hlt) as [x Hx]. by rewrite Hx.
  - rewrite lookup_seqZ_ge by lia. simpl.
    by rewrite (lookup_ge_None_2 l i) by lia.
Qed.

Lemma seed_inv_centroids idx clusters :
  seed_inv k idx clusters ->
  Some <$> (Centroid <$> clusters) = (fun i => data k !! Z.to_nat i) <$> idx.
Proof.
  intros [_ H]. induction H as [|i c idx clusters [Hi _] _ IH]; [done|].
  apply index_Ok in Hi as [_ Hi]. simpl. f_equal; [by rewrite Hi | exact IH].
Qed.

End FurtherSeeding.

(** X1. [in(i, p)] is true exactly when [i] stands at some position of
    [p]. *)
Theorem in_iff_listed_X1 (i : Z) (p : list Z) :
  in_ i p = true <-> exists n : nat, p !! n = Some i.
Proof. rewrite in_elem_of. apply list_elem_of_lookup. Qed.

(** X2. [nearestCluster] returns [-1] exactly when no centroid is at a
    distance strictly below [math.MaxFloat64] (so also for no clusters
    at all); its result is otherwise a position of the cluster slice, and
    the distance to the centroid found there is below [math.MaxFloat64]
    and not NaN. *)
Theorem nearestCluster_result_X2 (T : Type) (k : KMeans T) (node : T)
    (clusters : list (Cluster T)) :
  (nearestCluster k node clusters = -1 <->
   forall c, c ∈ clusters -> flt (dist_to k node c) MaxFloat64 = false) /\
  -1 <= nearestCluster k node clusters < Z.of_nat (length clusters) /\
  (forall c, index clusters (nearestCluster k node clusters) = Ok c ->
     flt (dist_to k node c) MaxFloat64 = true /\
     is_nan (dist_to k node c) = false).
Proof.
  destruct (nearestCluster_spec k node clusters)
    as [[Hm Hnone]|(i & c & Hi & Hl & Hlt & _)].
  - rewrite Hm. split; [done|]. split; [lia|].
    intros c Hc. by rewrite index_neg in Hc by lia.
  - rewrite Hi. pose proof (lookup_lt_Some _ _ _ Hl). split; [split|split].
    + lia.
    + intros Hnone. rewrite Hnone in Hlt; [done|].
      eapply list_elem_of_lookup_2; eauto.
    + lia.
    + intros c' Hc'. rewrite (index_of_nat _ _ _ Hl) in Hc'.
      injection Hc' as <-. split; [done|]. eapply flt_not_nan_l; eauto.
Qed.

(** X3. [nearestCluster] reads the centroids only: two cluster slices
    with the same centroids in the same order give the same position,
    whatever their members. *)
Theorem nearestCluster_ignores_members_X3 (T : Type) (k : KMeans T)
    (node : T) (clusters clusters' : list (Cluster T)) :
  Centroid <$> clusters = Centroid <$> clusters' ->
  nearestCluster k node clusters = nearestCluster k node clusters'.
Proof. apply nearestCluster_centroids. Qed.

Lemma nearestCluster_ignores_members_X3_witness :
  nearestCluster six 7
    [{| Centroid := 0; Nodes := [0; -5; 5] |};
     {| Centroid := 12; Nodes := [7; 8; 12] |}]
  = nearestCluster six 7 [seed 0; seed 12].
Proof.
  apply (nearestCluster_ignores_members_X3 Z six 7). reflexivity.
Defined.

(** X4. A completed assignment loop over [obs] leaves every centroid as
    it was and appends to each cluster, after the members it already had,
    exactly the observations for which [nearestCluster] (on the clusters
    the loop was entered with) returns its position, in the order of
    [obs]. *)
Theorem assign_result_X4 (T : Type) (k : KMeans T) (obs : list T)
    (clusters clusters' : list (Cluster T)) :
  assign k obs clusters = Ok clusters' ->
  clusters' = imap (fun i c => addNodes c (assigned k clusters obs i)) clusters.
Proof.
  apply assign_result_aux.
Qed.

Lemma assign_result_X4_witness :
  [{| Centroid := 0; Nodes := [0; -5; 5; 0; -5] |};
   {| Centroid := 9; Nodes := [7; 8; 12; 5; 7; 8; 12] |}]
  = imap (fun i c =>
            addNodes c
              (assigned six
                 [{| Centroid := 0; Nodes := [0; -5; 5] |};
                  {| Centroid := 9; Nodes := [7; 8; 12] |}] (data six) i))
      [{| Centroid := 0; Nodes := [0; -5; 5] |};
       {| Centroid := 9; Nodes := [7; 8; 12] |}].
Proof.
  apply (assign_result_X4 Z six (data six)). vm_compute. reflexivity.
Defined.

(** X5. A completed assignment loop over [obs] appends every observation
    of [obs] exactly once: the members of all clusters afterwards are,
    up to order, the members before followed by [obs], and the number of
    clusters is unchanged. *)
Theorem assign_members_X5 (T : Type) (k : KMeans T) (obs : list T)
    (clusters clusters' : list (Cluster T)) :
  assign k obs clusters = Ok clusters' ->
  members clusters' ≡ₚ members clusters ++ obs /\
  length clusters' = length clusters.
Proof.
  revert clusters. induction obs as [|x obs IH]; intros clusters H.
  - injection H as <-. by rewrite app_nil_r.
  - simpl in H. unfold appendNode in H.
    destruct (index clusters (nearestCluster k x clusters)) as [c|p] eqn:E;
      simpl in H; [|discriminate].
    apply index_Ok in E as [_ Hl]. destruct (IH _ H) as [Hperm Hlen].
    split.
    + rewrite Hperm.
      rewrite (members_insert clusters _ c x Hl).
      simpl. apply Permutation_middle.
    + by rewrite Hlen, length_insert.
Qed.

Lemma assign_members_X5_witness :
  members [{| Centroid := 0; Nodes := [0; -5; 5] |};
           {| Centroid := 12; Nodes := [7; 8; 12] |}]
    ≡ₚ members [seed 0; seed 12] ++ data six.
Proof.
  apply (assign_members_X5 Z six (data six) [seed 0; seed 12]).
  vm_compute. reflexivity.
Defined.

(** X6. The assignment loop completes exactly when every observation has
    a centroid at a distance strictly below [math.MaxFloat64]; otherwise
    it panics, and the panic is the read of [clusters[-1]]. *)
Theorem assign_completes_iff_X6 (T : Type) (k : KMeans T) (obs : list T)
    (clusters : list (Cluster T)) :
  ((exists clusters', assign k obs clusters = Ok clusters') <->
   (forall x, x ∈ obs ->
      exists c, c ∈ clusters /\ flt (dist_to k x c) MaxFloat64 = true)) /\
  (forall p, assign k obs clusters = Panic p ->
     p = index_out_of_range (-1) (length clusters)).
Proof.
  split; [split|].
  - intros [clusters' H]. by eapply assign_Ok_found.
  - intros H. rewrite (assign_spec k obs clusters H). eauto.
  - apply assign_panic.
Qed.

(** X7. The seeding loop never runs forever, whatever the distance
    function, the draw and the requested count: every round appends a
    cluster or panics, so [initClusters] has returned or panicked after at
    most [numClusters] rounds. *)
Theorem seeding_terminates_X7 (T : Type) (k : KMeans T) (r : Z)
    (numClusters fuel : nat) :
  (numClusters <= fuel)%nat ->
  initClusters k fuel r numClusters <> None.
Proof.
  intros Hfuel. unfold initClusters, initClustersIdx.
  destruct (index (data k) r) as [x|p]; [|done].
  pose proof (seedLoop_terminates k numClusters fuel [r]
                [{| Centroid := x; Nodes := [] |}]) as H.
  destruct (seedLoop k fuel numClusters _ _) as [[[idx clusters]|p]|];
    [done|done|]. exfalso. apply H; [simpl; lia | done].
Qed.

Lemma seeding_terminates_X7_witness :
  initClusters (apart [0; 1; 2]) 3 1 3 <> None.
Proof. apply (seeding_terminates_X7 Z (apart [0; 1; 2]) 1 3 3). lia. Defined.



(** X9. Whenever [Calculate(numClusters)] returns, it returns exactly
    [numClusters] clusters, and one cluster for [numClusters = 0]. *)
Theorem Calculate_count_X9 (T : Type) (k : KMeans T) (r : Z)
    (numClusters fuel : nat) (clusters : list (Cluster T)) :
  Calculate k fuel r numClusters = Some (Ok clusters) ->
  length clusters = Nat.max 1 numClusters.
Proof.
  unfold Calculate, initClusters, initClustersIdx, partition. intros H.
  destruct (index (data k) r) as [x|q] eqn:Hx; [|done].
  destruct (seedLoop k fuel numClusters _ _) as [[[idx seeded]|q]|] eqn:Hs;
    [|done|done].
  rewrite (partition_loop_length k _ _ _ _ H).
  destruct (decide (1 <= numClusters)%nat) as [Hn|Hn].
  - apply seedLoop_inv in Hs as [_ ->]; [lia| |simpl; lia].
    by apply seed_inv_first.
  - rewrite seedLoop_done in Hs by (simpl; lia). injection Hs as <- <-.
    simpl. lia.
Qed.

Lemma Calculate_count_X9_witness :
  length [{| Centroid := 2; Nodes := [1; 2; 3] |};
          {| Centroid := 11; Nodes := [10; 11; 12] |}] = Nat.max 1 2.
Proof.
  apply (Calculate_count_X9 Z (line [1; 2; 3; 10; 11; 12]) 0 2 2).
  vm_compute. reflexivity.
Defined.

(** X10. Whenever seeding returns, its first cluster is the drawn
    observation [k.data[r]], every cluster has no members, and every
    centroid is an observation of the collection. *)
Theorem seeded_clusters_X10 (T : Type) (k : KMeans T) (r : Z)
    (numClusters fuel : nat) (clusters : list (Cluster T)) :
  initClusters k fuel r numClusters = Some (Ok clusters) ->
  exists x rest,
    index (data k) r = Ok x /\
    clusters = {| Centroid := x; Nodes := [] |} :: rest /\
    Forall (fun c => Nodes c = [] /\ Centroid c ∈ data k) clusters.
Proof.
  unfold initClusters, initClustersIdx. intros H.
  destruct (index (data k) r) as [x|q] eqn:Hx; [|done].
  destruct (seedLoop k fuel numClusters _ _) as [[[idx seeded]|q]|] eqn:Hs;
    [|done|done].
  injection H as <-.
  destruct (seedLoop_extends k _ _ _ _ _ _ Hs) as (l & l' & _ & ->).
  exists x, l'. split; [done|]. split; [done|].
  apply seedLoop_seed_inv in Hs as [_ Hall]; [|by apply seed_inv_first].
  apply list.Forall_forall. intros c Hc.
  apply list_elem_of_lookup in Hc as [n Hn].
  destruct (Forall2_lookup_r _ _ _ _ _ Hall Hn) as (i & _ & Hi & Hnodes).
  split; [done|]. apply index_Ok in Hi as [_ Hi].
  eapply list_elem_of_lookup_2; eauto.
Qed.

Lemma seeded_clusters_X10_witness :
  exists x rest,
    index (data six) 0 = Ok x /\
    [seed 0; seed 12] = {| Centroid := x; Nodes := [] |} :: rest /\
    Forall (fun c => Nodes c = [] /\ Centroid c ∈ data six) [seed 0; seed 12].
Proof.
  apply (seeded_clusters_X10 Z six 0 2 1). vm_compute. reflexivity.
Defined.

(** X11. When seeding is asked for as many clusters as there are
    observations and returns, every position of the collection has been
    chosen exactly once, and the centroids are the observations of the
    collection up to order. *)
Theorem seeding_all_positions_X11 (T : Type) (k : KMeans T) (r : Z)
    (fuel : nat) (idx : list Z) (clusters : list (Cluster T)) :
  initClustersIdx k fuel r (length (data k)) = Some (Ok (idx, clusters)) ->
  idx ≡ₚ seqZ 0 (Z.of_nat (length (data k))) /\
  Centroid <$> clusters ≡ₚ data k.
Proof.
  unfold initClustersIdx. intros H.
  destruct (index (data k) r) as [x|q] eqn:Hx; [|done].
  apply index_Ok_lt in Hx as Hr.
  apply seedLoop_inv in H as [Hinv Hlen];
    [|by apply seed_inv_first|simpl; lia].
  assert (idx ≡ₚ seqZ 0 (Z.of_nat (length (data k)))) as Hperm.
  { apply submseteq_length_Permutation.
    - eapply seed_inv_submseteq; eauto.
    - rewrite length_seqZ, (seed_inv_length k _ _ Hinv). lia. }
  split; [done|].
  rewrite <- (omap_id_Some (Centroid <$> clusters)),
    <- (omap_id_Some (data k)).
  rewrite (seed_inv_centroids k _ _ Hinv), <- lookups_seqZ.
  by rewrite Hperm.
Qed.

Lemma seeding_all_positions_X11_witness :
  [0; 2; 1] ≡ₚ seqZ 0 3 /\ [1; 10; 4] ≡ₚ [1; 4; 10].
Proof.
  apply (seeding_all_positions_X11 Z (line [1; 4; 10]) 0 3 [0; 2; 1]
           [seed 1; seed 10; seed 4]).
  vm_compute. reflexivity.
Defined.

(** X12. After a completed iteration of [partition], every cluster has
    its previous members followed by the observations assigned to it, its
    centroid is [mean] of these members, and the flag handed to the loop
    test is [true] exactly when for some cluster [equals] holds between
    the previous and the new centroid. *)
Theorem iteration_result_X12 (T : Type) (k : KMeans T)
    (clusters clusters' : list (Cluster T)) (changed : bool) :
  iteration k clusters = Ok (clusters', changed) ->
  length clusters' = length clusters /\
  (forall (i : nat) c c',
     clusters !! i = Some c -> clusters' !! i = Some c' ->
     Nodes c' = Nodes c ++ assigned k clusters (data k) i /\
     Centroid c' = mean k (Nodes c')) /\
  (changed = true <->
   exists (i : nat) c c',
     clusters !! i = Some c /\ clusters' !! i = Some c' /\
     equals k (Centroid c) (Centroid c') = true).
Proof.
  intros H. split; [eapply iteration_length; eauto|].
  apply iteration_spec in H as (assigned_ & Ha & -> & ->).
  apply assign_result_aux in Ha.
  split.
  - intros i c c' Hc Hc'. rewrite Ha in Hc'.
    rewrite list_lookup_fmap, list_lookup_imap, Hc in Hc'.
    injection Hc' as <-. done.
  - unfold some_unchanged. rewrite existsb_exists. split.
    + intros (a & Hin & Heq). apply list_elem_of_In in Hin.
      apply list_elem_of_lookup in Hin as [i Hi].
      pose proof Hi as Hi'. rewrite Ha, list_lookup_imap in Hi'.
      destruct (clusters !! i) as [c|] eqn:Hc; [|done].
      injection Hi' as <-.
      exists i, c, (recenter k (addNodes c (assigned k clusters (data k) i))).
      split; [done|]. split; [|done].
      by rewrite Ha, list_lookup_fmap, list_lookup_imap, Hc.
    + intros (i & c & c' & Hc & Hc' & Heq).
      rewrite Ha, list_lookup_fmap, list_lookup_imap, Hc in Hc'.
      injection Hc' as <-.
      exists (addNodes c (assigned k clusters (data k) i)).
      split; [|done]. apply list_elem_of_In.
      eapply list_elem_of_lookup_2.
      by rewrite Ha, list_lookup_imap, Hc.
Qed.

Lemma iteration_result_X12_witness :
  length [{| Centroid := 0; Nodes := [0; -5; 5] |};
          {| Centroid := 9; Nodes := [7; 8; 12] |}]
  = length [seed 0; seed 12].
Proof.
  apply (iteration_result_X12 Z six [seed 0; seed 12] _ true).
  vm_compute. reflexivity.
Defined.

(** X13. With one cluster requested, every observation below
    [math.MaxFloat64] from the drawn one, and the drawn observation not
    [equals] to the mean of the collection, [Calculate(1)] returns after
    one iteration with a single cluster: its members are the collection
    in input order and its centroid is [mean] of the collection. *)
Theorem single_cluster_result_X13 (T : Type) (k : KMeans T) (r : Z)
    (fuel : nat) (x : T) :
  index (data k) r = Ok x ->
  (forall y, y ∈ data k -> flt (distance k y x) MaxFloat64 = true) ->
  equals k x (mean k (data k)) = false ->
  Calculate k (S fuel) r 1 =
  Some (Ok [{| Centroid := mean k (data k); Nodes := data k |}]).
Proof. apply single_cluster_moved. Qed.

Lemma single_cluster_result_X13_witness :
  Calculate (line [0; 10]) 1 0 1 =
  Some (Ok [{| Centroid := 5; Nodes := [0; 10] |}]).
Proof.
  apply (single_cluster_result_X13 Z (line [0; 10]) 0 0 0).
  - reflexivity.
  - intros y Hy. apply list_elem_of_In in Hy. simpl in Hy.
    repeat (destruct Hy as [<-|Hy]; [vm_compute; reflexivity|]).
    destruct Hy.
  - reflexivity.
Defined.

Section FurtherRefine.

Context {T : Type} (k : KMeans T).
Implicit Types (clusters : list (Cluster T)).

Lemma members_recenter clusters :
  members (recenter k <$> clusters) = members clusters.
Proof.
  unfold members. f_equal. rewrite <- list_fmap_compose.
  by apply list_fmap_ext.
Qed.

Lemma members_seeded idx clusters :
  seed_inv k idx clusters -> members clusters = [].
Proof.
  intros [_ H]. unfold members.
  induction H as [|i c idx clusters [_ Hc] _ IH]; [done|].
  simpl. rewrite Hc. exact IH.
Qed.

(** What the loop of [partition] returns: every centroid is the mean of
    the members next to it, and the members are those it was entered
    with and one copy of the collection for each iteration it ran. *)
Lemma partition_loop_returns fuel : forall changed clusters clusters',
  partition_loop k fuel changed clusters = Some (Ok clusters') ->
  (changed = true ->
   Forall (fun c => Centroid c = mean k (Nodes c)) clusters') /\
  exists n : nat,
    (changed = true -> 1 <= n)%nat /\ (n <= fuel)%nat /\
    members clusters' ≡ₚ members clusters ++ mjoin (replicate n (data k)).
Proof.
  induction fuel as [|fuel IH]; intros [] clusters clusters' H;
    try (rewrite partition_loop_false in H; injection H as <-;
         split; [done|]; exists 0%nat; simpl;
         rewrite app_nil_r; split; [done|split; [lia|done]]);
    [done|].
  rewrite partition_loop_step in H.
  destruct (iteration k clusters) as [[clusters1 ch]|p] eqn:Hit; [|done].
  apply iteration_spec in Hit as (assigned_ & Ha & -> & ->).
  assert (members (recenter k <$> assigned_) ≡ₚ members clusters ++ data k)
    as Hone.
  { rewrite members_recenter. revert Ha. generalize (data k). intros obs.
    revert clusters. induction obs as [|x obs IHo]; intros clusters Ha.
    - injection Ha as <-. by rewrite app_nil_r.
    - simpl in Ha. unfold appendNode in Ha.
      destruct (index clusters (nearestCluster k x clusters)) as [c|p] eqn:E;
        simpl in Ha; [|discriminate].
      apply index_Ok in E as [_ Hl].
      rewrite (IHo _ Ha), (members_insert clusters _ c x Hl).
      simpl. apply Permutation_middle. }
  destruct (IH _ _ _ H) as [Hmean (n & Hn & Hle & Hperm)].
  split.
  - intros _. destruct (some_unchanged k assigned_); [by apply Hmean|].
    rewrite partition_loop_false in H. injection H as <-.
    apply list.Forall_forall. intros c (a & -> & _)%list_elem_of_fmap. done.
  - exists (S n). split; [lia|]. split; [lia|].
    rewrite Hperm, Hone. simpl. by rewrite <- app_assoc.
Qed.

End FurtherRefine.

(** X14. Whenever [Calculate] returns, every returned centroid is [mean]
    of the member list returned with it: no centroid is left as the seed
    it started from. *)
Theorem Calculate_centroids_are_means_X14 (T : Type) (k : KMeans T) (r : Z)
    (numClusters fuel : nat) (clusters : list (Cluster T)) :
  Calculate k fuel r numClusters = Some (Ok clusters) ->
  Forall (fun c => Centroid c = mean k (Nodes c)) clusters.
Proof.
  unfold Calculate, partition. intros H.
  destruct (initClusters k fuel r numClusters) as [[seeded|p]|]; [|done|done].
  by apply (partition_loop_returns k _ _ _ _ H).
Qed.

Lemma Calculate_centroids_are_means_X14_witness :
  Forall (fun c => Centroid c = avg (Nodes c))
    [{| Centroid := 2; Nodes := [1; 2; 3] |};
     {| Centroid := 11; Nodes := [10; 11; 12] |}].
Proof.
  apply (Calculate_centroids_are_means_X14 Z (line [1; 2; 3; 10; 11; 12])
           0 2 2).
  vm_compute. reflexivity.
Defined.

(** X15. Whenever [Calculate] returns, the members of the returned
    clusters are, up to order, one copy of the whole collection for each
    iteration the refinement loop ran, and it ran at least one: every
    observation is a member equally often, and nothing else is. *)
Theorem Calculate_members_X15 (T : Type) (k : KMeans T) (r : Z)
    (numClusters fuel : nat) (clusters : list (Cluster T)) :
  Calculate k fuel r numClusters = Some (Ok clusters) ->
  exists n : nat,
    (1 <= n <= fuel)%nat /\
    members clusters ≡ₚ mjoin (replicate n (data k)).
Proof.
  unfold Calculate, initClusters, initClustersIdx, partition. intros H.
  destruct (index (data k) r) as [x|q] eqn:Hx; [|done].
  destruct (seedLoop k fuel numClusters _ _) as [[[idx seeded]|q]|] eqn:Hs;
    [|done|done].
  apply seedLoop_seed_inv in Hs; [|by apply seed_inv_first].
  destruct (partition_loop_returns k _ _ _ _ H) as [_ (n & Hn & Hle & Hperm)].
  exists n. split; [split; [by apply Hn|done]|].
  by rewrite Hperm, (members_seeded k _ _ Hs).
Qed.

Lemma Calculate_members_X15_witness :
  exists n : nat,
    (1 <= n <= 2)%nat /\
    members [{| Centroid := -1; Nodes := [0; -5; 5; 0; -5] |};
             {| Centroid := 8; Nodes := [7; 8; 12; 5; 7; 8; 12] |}]
      ≡ₚ mjoin (replicate n (data six)).
Proof.
  apply (Calculate_members_X15 Z six 0 2 2). vm_compute. reflexivity.
Defined.

(** X16. Asked for more clusters than there are observations,
    [Calculate] never returns a cluster set: it panics in seeding, within
    as many rounds as there are observations. *)
Theorem Calculate_overflow_panics_X16 (T : Type) (k : KMeans T) (r : Z)
    (numClusters fuel : nat) :
  0 <= r < Z.of_nat (length (data k)) ->
  (length (data k) < numClusters)%nat ->
  (length (data k) <= fuel)%nat ->
  exists n,
    Calculate k fuel r numClusters = Some (Panic (index_out_of_range (-1) n)).
Proof.
  intros Hr Hn Hfuel.
  destruct (index_in_range (data k) r Hr) as [x Hx].
  destruct (seedLoop_overflow k numClusters fuel [r]
              [{| Centroid := x; Nodes := [] |}])
    as (p & Hloop & n & ->); [by apply seed_inv_first|done|simpl; lia|].
  exists n. unfold Calculate, initClusters, initClustersIdx.
  by rewrite Hx, Hloop.
Qed.

Lemma Calculate_overflow_panics_X16_witness :
  exists n,
    Calculate (line [1; 2; 3]) 3 2 4
    = Some (Panic (index_out_of_range (-1) n)).
Proof.
  apply (Calculate_overflow_panics_X16 Z (line [1; 2; 3]) 2 4 3); simpl; lia.
Defined.
